(** * The bot pool allocation core of util.py

    A shallow embedding of [src/util.py]: the pool store (the sqlite table
    [newbots]), the two ticker validators, the identity calls to the
    messaging platform and the two allocation entry points [crypto] and
    [stock], followed by the properties of the allocation protocol.

    Conventions of the embedding.
    - A Python function that touches the database, the messaging platform or
      the notification webhook is a computation in the monad [M]: it takes the
      state of the world and gives an outcome (a value or a raised exception)
      and the next state.
    - What the remote services answer is not in the program: it is the
      environment [env], one answer per request.  An answer is either a
      response or an exception raised by the [requests] call itself.
    - [Str.lower] and [Str.upper] map the ASCII letters and keep every other
      character: they are Python's [str.lower] and [str.upper] on ASCII
      strings ([ascii_only]).
    - JSON numbers are embedded as integers. *)

From Stdlib Require Import List String Ascii Bool ZArith Lia PeanoNat DecimalString.
Import ListNotations.
Local Open Scope list_scope.
Local Open Scope string_scope.
Local Open Scope Z_scope.

(** ** Strings *)

Module Str.

Definition lower_ascii (c : ascii) : ascii :=
  let n := nat_of_ascii c in
  if (Nat.leb 65 n && Nat.leb n 90)%bool then ascii_of_nat (n + 32) else c.

Definition upper_ascii (c : ascii) : ascii :=
  let n := nat_of_ascii c in
  if (Nat.leb 97 n && Nat.leb n 122)%bool then ascii_of_nat (n - 32) else c.

Fixpoint map (f : ascii -> ascii) (s : string) : string :=
  match s with
  | EmptyString => EmptyString
  | String c r => String (f c) (map f r)
  end.

(** [s.lower()] and [s.upper()] for an ASCII string [s] *)
Definition lower (s : string) : string := map lower_ascii s.
Definition upper (s : string) : string := map upper_ascii s.

(** [needle in hay] on two strings *)
Fixpoint contains (needle hay : string) : bool :=
  (String.prefix needle hay
   || match hay with
      | EmptyString => false
      | String _ r => contains needle r
      end)%bool.

Definition is_empty (s : string) : bool :=
  match s with EmptyString => true | _ => false end.

End Str.

(** ** Python values

    The values that cross the program's boundaries: decoded JSON documents,
    JSON request bodies and the dictionaries the entry points return. *)

#[warnings="-register-all"]
Inductive pyval : Type :=
| PNone
| PBool (b : bool)
| PInt (z : Z)
| PStr (s : string)
| PTuple (l : list pyval)
| PList (l : list pyval)
| PDict (d : list (string * pyval)).

(** Truth value of a Python object, as [if x:] and [not x] test it. *)
Definition truthy (v : pyval) : bool :=
  match v with
  | PNone => false
  | PBool b => b
  | PInt z => negb (z =? 0)
  | PStr s => negb (Str.is_empty s)
  | PTuple l | PList l => match l with [] => false | _ => true end
  | PDict d => match d with [] => false | _ => true end
  end.

(** ** Exceptions and outcomes *)

Inductive exn : Type :=
| KeyError
| TypeError
| IndexError
| AttributeError
| ValueError          (* resp.json() on a body that is not JSON *)
| HTTPError           (* resp.raise_for_status() *)
| ConnectionError     (* raised by requests.get / patch / post themselves *)
| IntegrityError      (* sqlite3: a constraint of the table is violated *)
| OutsideModel.       (* the call leaves the embedded part of Python, see [crypto] *)

Inductive outcome (A : Type) : Type :=
| Ret (a : A)
| Raise (e : exn).
Arguments Ret {A} a.
Arguments Raise {A} e.

Fixpoint assoc (k : string) (d : list (string * pyval)) : option pyval :=
  match d with
  | [] => None
  | (k', v) :: r => if String.eqb k' k then Some v else assoc k r
  end.

(** [v[k]] with a string key *)
Definition getitem (v : pyval) (k : string) : outcome pyval :=
  match v with
  | PDict d => match assoc k d with Some x => Ret x | None => Raise KeyError end
  | _ => Raise TypeError
  end.

(** [v[i]] with an integer index [i >= 0] *)
Definition getindex (v : pyval) (i : nat) : outcome pyval :=
  match v with
  | PList l | PTuple l =>
      match nth_error l i with Some x => Ret x | None => Raise IndexError end
  | PStr s =>
      match String.get i s with
      | Some c => Ret (PStr (String c EmptyString))
      | None => Raise IndexError
      end
  | PDict _ => Raise KeyError
  | _ => Raise TypeError
  end.

Definition is_pstr (k : string) (v : pyval) : bool :=
  match v with PStr s => String.eqb s k | _ => false end.

(** [k in v] with a string [k] *)
Definition py_in (k : string) (v : pyval) : outcome bool :=
  match v with
  | PDict d => Ret (match assoc k d with Some _ => true | None => false end)
  | PList l | PTuple l => Ret (existsb (is_pstr k) l)
  | PStr s => Ret (Str.contains k s)
  | _ => Raise TypeError
  end.

(** [v.get(k)] *)
Definition py_get (v : pyval) (k : string) : outcome pyval :=
  match v with
  | PDict d => Ret (match assoc k d with Some x => x | None => PNone end)
  | _ => Raise AttributeError
  end.

(** [s.lower()] on a value that need not be a string *)
Definition py_lower (v : pyval) : outcome string :=
  match v with
  | PStr s => Ret (Str.lower s)
  | _ => Raise AttributeError
  end.

(** ** The pool store

    One row of the table [newbots]: the statements of the program name the
    columns [client_id], [token], [ticker] and [type], in this order
    ([INSERT INTO newbots VALUES (?, ?, NULL, NULL)]). *)

Record row : Type := mkRow {
  client_id : string;
  token : string;
  ticker : option string;
  type : option string
}.

(** Modelled from the spec: the CREATE TABLE statement of [newbots] is not in
    the source, so the constraints of the table are a parameter.  The three
    flags say which columns are declared UNIQUE ([ticker]: among non-null
    values, as in SQL); [on_conflict] is the conflict clause: sqlite's default
    ABORT makes the violating statement raise [IntegrityError] and change
    nothing, IGNORE skips the violating row silently. *)
Inductive conflict_clause : Type := ConflictAbort | ConflictIgnore.

Record schema : Type := mkSchema {
  unique_client_id : bool;
  unique_token : bool;
  unique_ticker : bool;
  on_conflict : conflict_clause
}.

(** Modelled from the spec: the logical schema of its section 6 ([client_id]
    unique, [token] unique, [ticker] unique when non-null) with the store
    contract of section 4.1 (a uniqueness violation surfaces as a declined
    insert, not a crash). *)
Definition spec_schema : schema :=
  mkSchema true true true ConflictIgnore.

(** The table without any declared constraint. *)
Definition bare_schema : schema :=
  mkSchema false false false ConflictAbort.

Definition has_ticker (t : string) (r : row) : bool :=
  match ticker r with Some t' => String.eqb t' t | None => false end.

Definition is_unclaimed (r : row) : bool :=
  match ticker r with Some _ => false | None => true end.

Definition has_client_id (c : string) (r : row) : bool :=
  String.eqb (client_id r) c.

Definition has_token (k : string) (r : row) : bool :=
  String.eqb (token r) k.

Module Sql.

(** [SELECT client_id, token FROM newbots WHERE ticker = ?] then
    [fetchone()]: the first matching row in table order, if any. *)
Definition select_by_ticker (t : string) (tbl : list row)
  : option (string * string) :=
  match find (has_ticker t) tbl with
  | Some r => Some (client_id r, token r)
  | None => None
  end.

(** [SELECT client_id, token FROM newbots WHERE ticker IS NULL] then
    [fetchone()]. *)
Definition select_unclaimed (tbl : list row) : option (string * string) :=
  match find is_unclaimed tbl with
  | Some r => Some (client_id r, token r)
  | None => None
  end.

Definition set_binding (t ty : string) (r : row) : row :=
  mkRow (client_id r) (token r) (Some t) (Some ty).

(** [UPDATE newbots SET ticker = ?, type = ? WHERE client_id = ?], row by
    row: [before] are the rows already visited, in their new state. The
    result is the new table and the number of rows changed ([rowcount]). *)
Fixpoint update_from (sch : schema) (t ty c : string)
         (before todo : list row) : outcome (list row * Z) :=
  match todo with
  | [] => Ret (before, 0)
  | r :: rest =>
      if has_client_id c r then
        if (unique_ticker sch
            && (existsb (has_ticker t) before || existsb (has_ticker t) rest))%bool
        then
          match on_conflict sch with
          | ConflictAbort => Raise IntegrityError
          | ConflictIgnore => update_from sch t ty c (before ++ [r]) rest
          end
        else
          match update_from sch t ty c (before ++ [set_binding t ty r]) rest with
          | Ret (tbl, n) => Ret (tbl, n + 1)
          | Raise e => Raise e
          end
      else update_from sch t ty c (before ++ [r]) rest
  end.

Definition update_binding (sch : schema) (t ty c : string) (tbl : list row)
  : outcome (list row * Z) :=
  update_from sch t ty c [] tbl.

(** [INSERT INTO newbots VALUES (?, ?, NULL, NULL)] *)
Definition insert_unclaimed (sch : schema) (c k : string) (tbl : list row)
  : outcome (list row * Z) :=
  if ((unique_client_id sch && existsb (has_client_id c) tbl)
      || (unique_token sch && existsb (has_token k) tbl))%bool
  then
    match on_conflict sch with
    | ConflictAbort => Raise IntegrityError
    | ConflictIgnore => Ret (tbl, 0)
    end
  else Ret ((tbl ++ [mkRow c k None None])%list, 1).

End Sql.

(** ** The world around the program *)

(** What [requests] hands back: [json] is what [resp.json()] decodes, [None]
    when the body is not a JSON document. *)
Record response : Type := mkResponse {
  status_code : Z;
  text : string;
  json : option pyval
}.

(** The answers of the remote services and the configuration read with
    [getenv].  [http_patch] gets the URL, the bot token of the Authorization
    header and the JSON body; [http_post] gets the URL and the dictionary that
    [dumps] serialises; [webhook] is [DiscordWebhook(...).execute()] for an
    embed carrying the given description. *)
Record env : Type := mkEnv {
  http_get : string -> outcome response;
  http_patch : string -> string -> pyval -> outcome response;
  http_post : string -> pyval -> outcome response;
  webhook : string -> outcome response;
  URL : string
}.

(** The state the program acts on: the table [newbots], the display names of
    the bots on the messaging platform (by token), and the messages delivered
    to the admin webhook, oldest first. *)
Record state : Type := mkState {
  db : list row;
  names : list (string * string);
  sink : list string
}.

Definition with_db (tbl : list row) (st : state) : state :=
  mkState tbl (names st) (sink st).

Fixpoint name_of (tok : string) (ns : list (string * string)) : option string :=
  match ns with
  | [] => None
  | (k, n) :: r => if String.eqb k tok then Some n else name_of tok r
  end.

(** ** The monad of the program *)

Definition M (A : Type) : Type := state -> outcome A * state.

Definition ret {A} (a : A) : M A := fun st => (Ret a, st).

Definition raise {A} (e : exn) : M A := fun st => (Raise e, st).

Definition bind {A B} (m : M A) (k : A -> M B) : M B :=
  fun st =>
    match m st with
    | (Ret a, st') => k a st'
    | (Raise e, st') => (Raise e, st')
    end.

(** [try: body  except: handler] with a bare [except] *)
Definition try_except {A} (body : M A) (handler : M A) : M A :=
  fun st =>
    match body st with
    | (Ret a, st') => (Ret a, st')
    | (Raise _, st') => handler st'
    end.

Definition lift {A} (o : outcome A) : M A := fun st => (o, st).

Declare Scope py_scope.
Delimit Scope py_scope with py.
Notation "x <- m ;; k" := (bind m (fun x => k))
  (at level 61, m at next level, right associativity) : py_scope.
Notation "m ;; k" := (bind m (fun _ => k))
  (at level 61, right associativity) : py_scope.
Local Open Scope py_scope.

(** The outcome and the final state of running a computation. *)
Definition result {A} (m : M A) (st : state) : outcome A := fst (m st).
Definition after {A} (m : M A) (st : state) : state := snd (m st).

(** ** Calls to the outside *)

Definition COINGECKO_URL : string := "https://api.coingecko.com/api/v3/".
Definition YAHOO_URL : string := "https://query1.finance.yahoo.com/v10/finance/".
Definition DISCORD_ME : string := "https://discord.com/api/users/@me".

(** [resp.raise_for_status()]: an error for the 4xx and 5xx statuses. *)
Definition is_error_status (r : response) : bool :=
  ((400 <=? status_code r) && (status_code r <? 600))%bool.

Definition raise_for_status (r : response) : M unit :=
  if is_error_status r then raise HTTPError else ret tt.

(** [resp.json()] *)
Definition resp_json (r : response) : M pyval :=
  match json r with
  | Some v => ret v
  | None => raise ValueError
  end.

Definition get (e : env) (url : string) : M response :=
  lift (http_get e url).

Definition post (e : env) (url : string) (data : pyval) : M response :=
  lift (http_post e url data).

(** Modelled from the spec: the messaging platform is not in the source.  By
    section 4.3 a rename sets the external display name to the name sent and
    fails on any non-success response; so a request that is answered without
    an error status has set the display name of the bot owning the token to
    the [username] of the body. *)
Definition platform_apply (tok : string) (body : pyval) (r : response)
           (st : state) : state :=
  if is_error_status r then st
  else match body with
       | PDict d =>
           match assoc "username" d with
           | Some (PStr n) => mkState (db st) ((tok, n) :: names st) (sink st)
           | _ => st
           end
       | _ => st
       end.

Definition patch (e : env) (url tok : string) (body : pyval) : M response :=
  fun st =>
    match http_patch e url tok body with
    | Ret r => (Ret r, platform_apply tok body r st)
    | Raise x => (Raise x, st)
    end.

(** ** util.py *)

(** [log]: the message goes to the admin webhook; the status of the delivery
    is returned. *)
Definition log (e : env) (message : string) : M Z :=
  fun st =>
    match webhook e message with
    | Ret r => (Ret (status_code r),
                mkState (db st) (names st) (sink st ++ [message])%list)
    | Raise x => (Raise x, st)
    end.

(** [change_bot_username]: [False] is [PBool false].  Only
    [raise_for_status] is inside the [try]. *)
Definition change_bot_username (e : env) (tok username : string) : M pyval :=
  resp <- patch e DISCORD_ME tok (PDict [("username", PStr (Str.upper username))]) ;;
  ok <- try_except (raise_for_status resp ;; ret true) (ret false) ;;
  if ok : bool then
    body <- resp_json resp ;;
    lift (py_get body "username")
  else ret (PBool false).

(** [create_bot]: the bot is started by a POST to the ticker service; the
    value of the rename that follows is dropped. *)
Definition bot_data (tick : pyval) (name tok : string) (is_crypto : bool) : pyval :=
  PDict [("ticker", tick);
         ("name", PStr name);
         ("crypto", PBool is_crypto);
         ("frequency", PInt 90);
         ("discord_bot_token", PStr tok)].

Definition create_bot (e : env) (tick : pyval) (name cid tok : string)
           (is_crypto : bool) : M bool :=
  let data := bot_data tick name tok is_crypto in
  resp <- post e (URL e ++ "/ticker") data ;;
  if status_code resp =? 200 then
    change_bot_username e tok name ;;
    ret true
  else
    log e (text resp) ;;
    ret false.

(** [crypto_validate]: [None] is the empty tuple [()]. *)
Definition crypto_validate (e : env) (id : string) : M (option (pyval * pyval)) :=
  resp <- get e (COINGECKO_URL ++ "coins/" ++ id) ;;
  decoded <- try_except
               (raise_for_status resp ;;
                (data <- resp_json resp ;; ret (Some data)))
               (ret None) ;;
  match decoded with
  | None => ret None
  | Some data =>
      i <- lift (getitem data "id") ;;
      s <- lift (getitem data "symbol") ;;
      ret (Some (i, s))
  end.

(** [data['quoteSummary']['result'][0]['price']] *)
Definition quote_price (data : pyval) : M pyval :=
  q <- lift (getitem data "quoteSummary") ;;
  r <- lift (getitem q "result") ;;
  r0 <- lift (getindex r 0) ;;
  lift (getitem r0 "price").

(** [stock_validate] *)
Definition stock_validate (e : env) (id : string) : M (option (string * string)) :=
  resp <- get e (YAHOO_URL ++ "quoteSummary/" ++ id ++ "?modules=price") ;;
  decoded <- try_except
               (raise_for_status resp ;;
                (data <- resp_json resp ;; ret (Some data)))
               (ret None) ;;
  match decoded with
  | None => ret None
  | Some data =>
      q <- lift (getitem data "quoteSummary") ;;
      err <- lift (getitem q "error") ;;
      if truthy err then ret None
      else
        price <- quote_price data ;;
        has_currency <- lift (py_in "currencySymbol" price) ;;
        if negb has_currency then ret None
        else
          price' <- quote_price data ;;
          sym <- lift (getitem price' "symbol") ;;
          symbol <- lift (py_lower sym) ;;
          ret (Some (symbol, symbol))
  end.

(** [check_existing_bot]: the pair [(client_id, token)] of the row bound to
    [tick], compared as given.  [fetchone] returns a row or [None], so the
    handler for [TypeError] is never entered. *)
Definition check_existing_bot (tick : string) : M (option (string * string)) :=
  fun st => (Ret (Sql.select_by_ticker tick (db st)), st).

(** The two statements of [get_new_bot] on its connection. *)
Definition select_unclaimed : M (option (string * string)) :=
  fun st => (Ret (Sql.select_unclaimed (db st)), st).

(** [claim_cur.execute(UPDATE ...)] followed by [claim_cur.rowcount]; the
    change is the one that [db_client.commit()] makes durable, and a statement
    that changes no row leaves nothing to commit. *)
Definition execute_claim (sch : schema) (t ty c : string) : M Z :=
  fun st =>
    match Sql.update_binding sch t ty c (db st) with
    | Ret (tbl, n) => (Ret n, with_db tbl st)
    | Raise x => (Raise x, st)
    end.

(** [get_new_bot]: [None] is [()], [Some (c, None)] is [(c, None)] for a bot
    that already existed, [Some (c, Some k)] is the claimed row [(c, k)]. *)
Definition get_new_bot (sch : schema) (e : env) (tick typ : string)
  : M (option (string * option string)) :=
  existing <- check_existing_bot tick ;;
  match existing with
  | Some (c, _) => ret (Some (c, None))
  | None =>
      new_bot <- select_unclaimed ;;
      match new_bot with
      | None =>
          log e "Unable to get new bot from db" ;;
          ret None
      | Some (c, k) =>
          rowcount <- execute_claim sch (Str.lower tick) typ c ;;
          if rowcount =? 0 then
            log e "Unable to claim new bot in db" ;;
            ret None
          else ret (Some (c, Some k))
      end
  end.

(** [not bot_details[1]] *)
Definition no_token (k : option string) : bool :=
  match k with
  | None => true
  | Some s => Str.is_empty s
  end.

Definition TROUBLE : string := "having trouble starting new bot".

Definition invite (kind sym cid : string) : string :=
  kind ++ ": `[" ++ sym ++ "](https://discord.com/api/oauth2/authorize?client_id="
       ++ cid ++ "&permissions=0&scope=bot)`".

(** [repr] of a string: single quotes, or double quotes when the string
    holds a single quote and no double quote; the quote and the backslash are
    escaped, tab, newline and carriage return are written [\t], [\n], [\r],
    the other control characters as [\xhh]. *)
Definition dquote : ascii := ascii_of_nat 34.

Definition hex_digit (n : nat) : ascii :=
  match String.get n "0123456789abcdef" with
  | Some c => c
  | None => "0"%char
  end.

Fixpoint has_char (c : ascii) (s : string) : bool :=
  match s with
  | EmptyString => false
  | String x r => (Ascii.eqb x c || has_char c r)%bool
  end.

Definition escape_char (quote c : ascii) : string :=
  let n := nat_of_ascii c in
  if (Ascii.eqb c quote || Ascii.eqb c "\")%bool then String "\" (String c EmptyString)
  else if Nat.eqb n 9 then "\t"
  else if Nat.eqb n 10 then "\n"
  else if Nat.eqb n 13 then "\r"
  else if (Nat.ltb n 32 || Nat.eqb n 127)%bool
       then String "\" (String "x" (String (hex_digit (n / 16))
                                          (String (hex_digit (n mod 16)) EmptyString)))
       else String c EmptyString.

Fixpoint escape (quote : ascii) (s : string) : string :=
  match s with
  | EmptyString => EmptyString
  | String c r => escape_char quote c ++ escape quote r
  end.

Definition repr_str (s : string) : string :=
  let quote := if (has_char "'" s && negb (has_char dquote s))%bool
               then dquote else "'"%char in
  String quote (escape quote s ++ String quote EmptyString).

(** [repr] of a value. *)
Fixpoint py_repr (v : pyval) : string :=
  match v with
  | PNone => "None"
  | PBool true => "True"
  | PBool false => "False"
  | PInt z => NilZero.string_of_int (Z.to_int z)
  | PStr s => repr_str s
  | PList l => "[" ++ String.concat ", " (map py_repr l) ++ "]"
  | PTuple l =>
      match l with
      | [x] => "(" ++ py_repr x ++ ",)"
      | _ => "(" ++ String.concat ", " (map py_repr l) ++ ")"
      end
  | PDict d =>
      "{" ++ String.concat ", "
               (map (fun kv => repr_str (fst kv) ++ ": " ++ py_repr (snd kv)) d)
          ++ "}"
  end.

(** A value in an f-string: [str(v)], a string as itself and any other value
    as its [repr]. *)
Definition fstring (v : pyval) : string :=
  match v with
  | PStr s => s
  | _ => py_repr v
  end.

(** [crypto].  The catalogue's [id] is passed where [get_new_bot] declares a
    [str] and is bound in its SELECT.  How sqlite compares a bound value
    that is not a string with the [ticker] column depends on the declared type
    of the column, which the source does not contain: for an [id] that is not
    a JSON string the embedding stops with [OutsideModel], before any
    statement writes (as the code does: [ticker.lower()] raises before the
    UPDATE is executed). *)
Definition crypto (sch : schema) (e : env) (id : string) : M pyval :=
  crypto_details <- crypto_validate e (Str.lower id) ;;
  match crypto_details with
  | None =>
      possible_id <- check_existing_bot (Str.lower id) ;;
      match possible_id with
      | Some (c, _) => ret (PDict [("client_id", PStr c); ("existing", PBool true)])
      | None =>
          log e ("unable to validate coin id: " ++ id) ;;
          ret (PDict [("error", PStr ("unable to validate coin id: " ++ id))])
      end
  | Some (PStr cg_id, cg_symbol) =>
      bot_details <- get_new_bot sch e cg_id "crypto" ;;
      match bot_details with
      | None =>
          log e "no more new bots avalible" ;;
          ret (PDict [("error", PStr "there are no more unclaimed bots. come back tomorrow and there might be more available")])
      | Some (c, k) =>
          if no_token k then
            log e ("existing bot requested: " ++ id) ;;
            ret (PDict [("client_id", PStr c); ("existing", PBool true)])
          else
            log e ("attempting to create new bot: " ++ id) ;;
            success <- create_bot e cg_symbol cg_id c
                         (match k with Some s => s | None => "" end) true ;;
            if success : bool then
              log e (invite "crypto" (fstring cg_symbol) c) ;;
              ret (PDict [("client_id", PStr c)])
            else ret (PDict [("error", PStr TROUBLE)])
      end
  | Some _ => raise OutsideModel
  end.

(** [stock]: on the fallback path the whole pair that [check_existing_bot]
    returned is stored under [client_id]. *)
Definition stock (sch : schema) (e : env) (id : string) : M pyval :=
  stock_details <- stock_validate e (Str.lower id) ;;
  match stock_details with
  | None =>
      possible_id <- check_existing_bot (Str.lower id) ;;
      match possible_id with
      | Some (c, k) =>
          ret (PDict [("client_id", PTuple [PStr c; PStr k]); ("existing", PBool true)])
      | None =>
          log e ("unable to validate stock id: " ++ id) ;;
          ret (PDict [("error", PStr ("unable to validate stock id: " ++ id))])
      end
  | Some (y_id, y_symbol) =>
      bot_details <- get_new_bot sch e y_id "stock" ;;
      match bot_details with
      | None =>
          log e "no more new bots avalible" ;;
          ret (PDict [("error", PStr "no more new bots avalible")])
      | Some (c, k) =>
          if no_token k then
            log e ("existing bot requested: " ++ id) ;;
            ret (PDict [("client_id", PStr c); ("existing", PBool true)])
          else
            log e ("attempting to create new bot: " ++ id) ;;
            success <- create_bot e (PStr y_symbol) y_id c
                         (match k with Some s => s | None => "" end) false ;;
            if success : bool then
              log e (invite "stock" y_symbol c) ;;
              ret (PDict [("client_id", PStr c)])
            else ret (PDict [("error", PStr TROUBLE)])
      end
  end.

(** [new_cur.execute(INSERT ...)] followed by [new_cur.rowcount]. *)
Definition execute_insert (sch : schema) (c k : string) : M Z :=
  fun st =>
    match Sql.insert_unclaimed sch c k (db st) with
    | Ret (tbl, n) => (Ret n, with_db tbl st)
    | Raise x => (Raise x, st)
    end.

(** [add_bot] *)
Definition add_bot (sch : schema) (e : env) (cid tok : string) : M bool :=
  renamed <- change_bot_username e tok "new ticker bot" ;;
  if negb (truthy renamed) then
    log e ("unable to change the name for " ++ cid) ;;
    ret false
  else
    rowcount <- execute_insert sch cid tok ;;
    if rowcount =? 0 then
      log e "Unable to add new bot to db" ;;
      ret false
    else ret true.

(** ** The operations of the core, as one type *)

Inductive core_op : Type :=
| Op_get_new_bot (tick typ : string)
| Op_check_existing_bot (tick : string)
| Op_crypto (id : string)
| Op_stock (id : string)
| Op_add_bot (cid tok : string).

(** The state an operation leaves, whatever it returns or raises. *)
Definition run_op (sch : schema) (e : env) (op : core_op) (st : state) : state :=
  match op with
  | Op_get_new_bot tick typ => after (get_new_bot sch e tick typ) st
  | Op_check_existing_bot tick => after (check_existing_bot tick) st
  | Op_crypto id => after (crypto sch e id) st
  | Op_stock id => after (stock sch e id) st
  | Op_add_bot cid tok => after (add_bot sch e cid tok) st
  end.

(** A sequence of operations, each with the answers the services give while
    it runs. *)
Fixpoint run_ops (sch : schema) (ops : list (env * core_op)) (st : state) : state :=
  match ops with
  | [] => st
  | (e, op) :: later => run_ops sch later (run_op sch e op st)
  end.

(** Every bound row of [tbl] is, unchanged, at the same place in [tbl']. *)
Definition keeps_bindings (tbl tbl' : list row) : Prop :=
  forall i r, nth_error tbl i = Some r -> ticker r <> None ->
              nth_error tbl' i = Some r.

(** [client_id] is unique in the table. *)
Definition unique_ids (tbl : list row) : Prop := NoDup (map client_id tbl).

(** The webhook takes every message. *)
Definition delivers (e : env) : Prop :=
  forall m, exists r, webhook e m = Ret r.

(** ** Concurrent callers of [get_new_bot]

    Callers are separate invocations that share the table only.  Each SQL
    statement is one atomic step of the store; the connection is opened in
    the default mode of [sqlite3], where a SELECT starts no transaction, so
    between the statements of one caller the statements of another may run.
    A caller of [get_new_bot] is at one of four places. *)

Module Race.

Inductive pc : Type :=
| AtCheck                       (* before the SELECT of check_existing_bot *)
| AtSelect                      (* before SELECT ... WHERE ticker IS NULL *)
| AtClaim (c k : string)        (* new_bot fetched, before UPDATE and commit *)
| Done (r : outcome (option (string * option string))).

Record caller : Type := mkCaller {
  tick : string;
  typ : string;
  at_pc : pc
}.

(** The statement at each place, with the Python code that follows it up to
    the next statement. *)
Definition statement (sch : schema) (e : env) (t ty : string) (p : pc) : M pc :=
  match p with
  | AtCheck =>
      existing <- check_existing_bot t ;;
      match existing with
      | Some (c, _) => ret (Done (Ret (Some (c, None))))
      | None => ret AtSelect
      end
  | AtSelect =>
      new_bot <- select_unclaimed ;;
      match new_bot with
      | None =>
          log e "Unable to get new bot from db" ;;
          ret (Done (Ret None))
      | Some (c, k) => ret (AtClaim c k)
      end
  | AtClaim c k =>
      rowcount <- execute_claim sch (Str.lower t) ty c ;;
      if rowcount =? 0 then
        log e "Unable to claim new bot in db" ;;
        ret (Done (Ret None))
      else ret (Done (Ret (Some (c, Some k))))
  | Done r => ret (Done r)
  end.

Definition step (sch : schema) (e : env) (t ty : string) (p : pc) (st : state)
  : pc * state :=
  match statement sch e t ty p st with
  | (Ret p', st') => (p', st')
  | (Raise x, st') => (Done (Raise x), st')
  end.

Fixpoint steps (n : nat) (sch : schema) (e : env) (t ty : string)
         (p : pc) (st : state) : pc * state :=
  match n with
  | O => (p, st)
  | S n' => let (p', st') := step sch e t ty p st in steps n' sch e t ty p' st'
  end.

Fixpoint step_nth (sch : schema) (e : env) (i : nat) (cs : list caller)
         (st : state) : list caller * state :=
  match cs, i with
  | [], _ => ([], st)
  | c :: rest, O =>
      let (p', st') := step sch e (tick c) (typ c) (at_pc c) st in
      (mkCaller (tick c) (typ c) p' :: rest, st')
  | c :: rest, S j =>
      let (rest', st') := step_nth sch e j rest st in
      (c :: rest', st')
  end.

(** A schedule names, step by step, the caller that runs next. *)
Fixpoint run (sch : schema) (e : env) (schedule : list nat)
         (cs : list caller) (st : state) : list caller * state :=
  match schedule with
  | [] => (cs, st)
  | i :: later =>
      let (cs', st') := step_nth sch e i cs st in
      run sch e later cs' st'
  end.

Definition start (t ty : string) : caller := mkCaller t ty AtCheck.

Definition outcomes (cs : list caller) : list pc := map at_pc cs.

End Race.

(** ** Sample worlds *)

Module Sample.

Definition ok (body : pyval) : outcome response :=
  Ret (mkResponse 200 "" (Some body)).

Definition status (code : Z) : outcome response :=
  Ret (mkResponse code "" None).

Definition bitcoin : pyval :=
  PDict [("id", PStr "bitcoin"); ("symbol", PStr "btc")].

Definition quote (symbol : string) : pyval :=
  PDict [("quoteSummary",
          PDict [("result",
                  PList [PDict [("price",
                                 PDict [("currencySymbol", PStr "$");
                                        ("symbol", PStr symbol)])]]);
                 ("error", PNone)])].

(** Every service answers: the catalogue knows [bitcoin], the quote service
    knows [AAPL], the ticker service starts the bot, the platform renames. *)
Definition online : env :=
  mkEnv
    (fun url =>
       if String.eqb url (COINGECKO_URL ++ "coins/bitcoin") then ok bitcoin
       else if String.eqb url (YAHOO_URL ++ "quoteSummary/aapl?modules=price")
            then ok (quote "AAPL")
            else status 404)
    (fun _ _ body => ok body)
    (fun _ _ => status 200)
    (fun _ => status 204)
    "http://tickers".

(** As [online], but the platform refuses the token (401 on the rename). *)
Definition rename_refused : env :=
  mkEnv (http_get online) (fun _ _ _ => status 401)
        (http_post online) (webhook online) (URL online).

(** As [online], but the ticker service fails to start the bot. *)
Definition start_fails : env :=
  mkEnv (http_get online) (http_patch online)
        (fun _ _ => status 500) (webhook online) (URL online).

(** The validators are unreachable: [requests.get] raises. *)
Definition validators_down : env :=
  mkEnv (fun _ => Raise ConnectionError) (http_patch online)
        (http_post online) (webhook online) (URL online).

(** The validators answer 404. *)
Definition unknown_ticker : env :=
  mkEnv (fun _ => status 404) (http_patch online)
        (http_post online) (webhook online) (URL online).

(** The validators answer 200 with a JSON document without the fields. *)
Definition empty_document : env :=
  mkEnv (fun _ => ok (PDict [])) (http_patch online)
        (http_post online) (webhook online) (URL online).

(** The catalogue answers with an id in upper case. *)
Definition upper_id : env :=
  mkEnv (fun _ => ok (PDict [("id", PStr "BTC"); ("symbol", PStr "btc")]))
        (http_patch online) (http_post online) (webhook online) (URL online).

Definition world (tbl : list row) : state := mkState tbl [] [].

Definition free1 : row := mkRow "c1" "t1" None None.
Definition free2 : row := mkRow "c2" "t2" None None.
Definition bound1 (t ty : string) : row := mkRow "c1" "t1" (Some t) (Some ty).

End Sample.

(** ** What a computation does to the table *)

(** [R] relates the table before and after [m], whatever [m] returns. *)
Definition db_rel {A} (R : list row -> list row -> Prop) (m : M A) : Prop :=
  forall st, R (db st) (db (snd (m st))).

(** [m] leaves the table as it is. *)
Definition db_frame {A} (m : M A) : Prop := db_rel eq m.

(** [m] only reads the state. *)
Definition pure {A} (m : M A) : Prop := forall st, snd (m st) = st.

(** The effect of one row of the UPDATE of [get_new_bot]. *)
Definition claimed_from (t ty c : string) (r r' : row) : Prop :=
  r' = r \/ (client_id r = c /\ r' = Sql.set_binding t ty r).

(** The state after [log] has delivered [m]. *)
Definition logged (m : string) (st : state) : state :=
  mkState (db st) (names st) (sink st ++ [m])%list.

(** The answer of a request that passes two messages to [log] and then
    returns [v]: what the webhook raises for the first message, else what it
    raises for the second, else [v]. *)
Definition after_two_logs {A} (e : env) (m1 m2 : string) (v : A) : outcome A :=
  match webhook e m1 with
  | Raise x => Raise x
  | Ret _ =>
      match webhook e m2 with
      | Raise x => Raise x
      | Ret _ => Ret v
      end
  end.

(** The relation of the irreversibility property: on a table with unique
    client ids, bound rows stay as they are. *)
Definition permanence (tbl tbl' : list row) : Prop :=
  unique_ids tbl -> keeps_bindings tbl tbl'.

(** Uniqueness of the client ids is kept, when the table declares it. *)
Definition ids_stay_unique (sch : schema) (tbl tbl' : list row) : Prop :=
  unique_client_id sch = true -> unique_ids tbl -> unique_ids tbl'.

(** The rest of an allocation once a row is claimed; [tick] is the symbol
    the validator gave. *)
Definition brand (e : env) (kind : string) (tick : pyval) (name c k : string)
           (is_crypto : bool) : M pyval :=
  success <- create_bot e tick name c k is_crypto ;;
  if success : bool then
    log e (invite kind (fstring tick) c) ;;
    ret (PDict [("client_id", PStr c)])
  else ret (PDict [("error", PStr TROUBLE)]).

(** The code of [crypto] and of [stock] below their call of [get_new_bot];
    the two differ in the kind, the flag and the text for an empty pool. *)
Definition respond (e : env) (id kind sorry : string) (is_crypto : bool)
           (name : string) (tick : pyval) (bot_details : option (string * option string))
  : M pyval :=
  match bot_details with
  | None =>
      log e "no more new bots avalible" ;;
      ret (PDict [("error", PStr sorry)])
  | Some (c, k) =>
      if no_token k then
        log e ("existing bot requested: " ++ id) ;;
        ret (PDict [("client_id", PStr c); ("existing", PBool true)])
      else
        log e ("attempting to create new bot: " ++ id) ;;
        success <- create_bot e tick name c
                     (match k with Some s => s | None => "" end) is_crypto ;;
        if success : bool then
          log e (invite kind (fstring tick) c) ;;
          ret (PDict [("client_id", PStr c)])
        else ret (PDict [("error", PStr TROUBLE)])
  end.

(** The answer of a request that passes one message to [log] and then
    returns [v]. *)
Definition after_log {A} (e : env) (m : string) (v : A) : outcome A :=
  match webhook e m with
  | Raise x => Raise x
  | Ret _ => Ret v
  end.

Definition SORRY_CRYPTO : string :=
  "there are no more unclaimed bots. come back tomorrow and there might be more available".

Definition SORRY_STOCK : string := "no more new bots avalible".

(** ** The rest of util.py *)

(** [v.get(k, default)] *)
Definition py_get_default (v : pyval) (k : string) (default : pyval) : outcome pyval :=
  match v with
  | PDict d => Ret (match assoc k d with Some x => x | None => default end)
  | _ => Raise AttributeError
  end.

(** [change_bot_photo]: as in [change_bot_username], only [raise_for_status]
    is inside the [try]. *)
Definition change_bot_photo (e : env) (tok base64_photo : string) : M bool :=
  resp <- patch e DISCORD_ME tok (PDict [("avatar", PStr base64_photo)]) ;;
  ok <- try_except (raise_for_status resp ;; ret true) (ret false) ;;
  if ok : bool then
    body <- resp_json resp ;;
    avatar <- lift (py_get_default body "avatar" (PBool false)) ;;
    if negb (truthy avatar) then ret false else ret true
  else ret false.

(** [for x in v]: the elements of a list or tuple, the keys of a dictionary,
    the characters of a string. *)
Fixpoint chars (s : string) : list pyval :=
  match s with
  | EmptyString => []
  | String c r => PStr (String c EmptyString) :: chars r
  end.

Definition py_iter (v : pyval) : outcome (list pyval) :=
  match v with
  | PList l | PTuple l => Ret l
  | PDict d => Ret (map (fun kv => PStr (fst kv)) d)
  | PStr s => Ret (chars s)
  | _ => Raise TypeError
  end.

(** [key in x[field]] *)
Definition field_has (key : string) (x : pyval) (field : string) : outcome bool :=
  match getitem x field with
  | Ret v => py_in key v
  | Raise err => Raise err
  end.

(** [key in x['id'] or key in x['symbol'] or key in x['name']], evaluated
    from the left and stopping at the first true operand. *)
Definition search_hit (key : string) (x : pyval) : outcome bool :=
  match field_has key x "id" with
  | Ret true => Ret true
  | Ret false =>
      match field_has key x "symbol" with
      | Ret true => Ret true
      | Ret false => field_has key x "name"
      | Raise err => Raise err
      end
  | Raise err => Raise err
  end.

(** [[x['id'] for x in data if ...]] *)
Fixpoint search_ids (key : string) (data : list pyval) : outcome (list pyval) :=
  match data with
  | [] => Ret []
  | x :: rest =>
      match search_hit key x with
      | Ret true =>
          match getitem x "id" with
          | Ret i =>
              match search_ids key rest with
              | Ret ids => Ret (i :: ids)
              | Raise err => Raise err
              end
          | Raise err => Raise err
          end
      | Ret false => search_ids key rest
      | Raise err => Raise err
      end
  end.

(** [crypto_search]: the empty tuple for a bad response, else the list of
    the ids that match. *)
Definition crypto_search (e : env) (key : string) : M pyval :=
  resp <- get e (COINGECKO_URL ++ "coins/list") ;;
  decoded <- try_except
               (raise_for_status resp ;;
                (data <- resp_json resp ;; ret (Some data)))
               (ret None) ;;
  match decoded with
  | None => ret (PTuple [])
  | Some data =>
      items <- lift (py_iter data) ;;
      ids <- lift (search_ids key items) ;;
      ret (PList ids)
  end.

(** [s.split(sep)] for a separator of one character: at least one piece. *)
Fixpoint split (sep : ascii) (s : string) : list string :=
  match s with
  | EmptyString => [EmptyString]
  | String c r =>
      if Ascii.eqb c sep then EmptyString :: split sep r
      else match split sep r with
           | piece :: pieces => String c piece :: pieces
           | [] => [String c EmptyString]
           end
  end.

(** [sep.join(pieces)] *)
Fixpoint join (sep : string) (pieces : list string) : string :=
  match pieces with
  | [] => EmptyString
  | [piece] => piece
  | piece :: rest => piece ++ sep ++ join sep rest
  end.

(** [url.split(".")[-1]] *)
Definition extension (url : string) : string :=
  last (split "." url) EmptyString.

(** [base64.b64encode], on the bytes of a string. *)
Module Base64.

Definition alphabet : string :=
  "ABCDEFGHIJKLMNOPQRSTUVWXYZabcdefghijklmnopqrstuvwxyz0123456789+/".

Definition digit (n : nat) : ascii :=
  match String.get n alphabet with
  | Some c => c
  | None => "="%char
  end.

Definition quad (c0 c1 c2 c3 : ascii) (r : string) : string :=
  String c0 (String c1 (String c2 (String c3 r))).

Fixpoint b64encode (s : string) : string :=
  match s with
  | EmptyString => EmptyString
  | String a EmptyString =>
      let x := nat_of_ascii a in
      quad (digit (x / 4)) (digit (x mod 4 * 16)) "=" "=" EmptyString
  | String a (String b EmptyString) =>
      let x := nat_of_ascii a in
      let y := nat_of_ascii b in
      quad (digit (x / 4)) (digit (x mod 4 * 16 + y / 16))
           (digit (y mod 16 * 4)) "=" EmptyString
  | String a (String b (String c r)) =>
      let x := nat_of_ascii a in
      let y := nat_of_ascii b in
      let z := nat_of_ascii c in
      quad (digit (x / 4)) (digit (x mod 4 * 16 + y / 16))
           (digit (y mod 16 * 4 + z / 64)) (digit (z mod 64))
           (b64encode r)
  end.

End Base64.

(** The data URI that [change_ticker_photo] builds from the URL and the
    downloaded bytes.  The output of [b64encode] is ASCII, and its
    [decode('ascii')] is the same characters as a string. *)
Definition photo_encoded (url content : string) : string :=
  "data:image/" ++ extension url ++ ";base64," ++ Base64.b64encode content.

(** [change_ticker_photo].  [resp.content] is the body of the response, which
    the embedding keeps, as bytes, in [text]; the status of the download is
    not looked at.  The [print] of the encoded photo is not embedded. *)
Definition change_ticker_photo (e : env) (tick url : string) : M bool :=
  client_id <- check_existing_bot tick ;;
  match client_id with
  | None => ret false
  | Some (_, k) =>
      resp <- get e url ;;
      change_bot_photo e k (photo_encoded url (text resp))
  end.

(** [INSERT INTO newbots VALUES (?, ?, ?, ?)] with a ticker and a type. *)
Definition insert_bound (sch : schema) (c k t ty : string) (tbl : list row)
  : outcome (list row * Z) :=
  if ((unique_client_id sch && existsb (has_client_id c) tbl)
      || (unique_token sch && existsb (has_token k) tbl)
      || (unique_ticker sch && existsb (has_ticker t) tbl))%bool
  then
    match on_conflict sch with
    | ConflictAbort => Raise IntegrityError
    | ConflictIgnore => Ret (tbl, 0)
    end
  else Ret ((tbl ++ [mkRow c k (Some t) (Some ty)])%list, 1).

(** [new_cur.execute(INSERT ... VALUES (?, ?, ?, ?))] on the public table,
    followed by [new_cur.rowcount]. *)
Definition execute_insert_bound (sch : schema) (c k t ty : string) : M Z :=
  fun st =>
    match insert_bound sch c k t ty (db st) with
    | Ret (tbl, n) => (Ret n, with_db tbl st)
    | Raise x => (Raise x, st)
    end.

(** [add_private_bot].  The file opened is [DB_PATH + db + '.db'], where the
    public pool is the file [DB_PATH + PUBLIC_DB].  [is_public name] tells
    whether [DB_PATH + name] opens the file of the public pool (the name is
    [PUBLIC_DB], or another path to the same file): then the INSERT goes to
    the public table.  Otherwise [private] is the table [newbots] of the file
    before the call; the table after the call is returned beside the result.
    A call that raises has committed nothing. *)
Definition add_private_bot (sch : schema) (e : env) (is_public : string -> bool)
           (db : string) (private : list row) (cid tok tick typ : string)
  : M (bool * list row) :=
  renamed <- change_bot_username e tok tick ;;
  if negb (truthy renamed) then
    log e ("unable to change the name for " ++ cid) ;;
    ret (false, private)
  else if is_public (db ++ ".db") then
    rowcount <- execute_insert_bound sch cid tok tick typ ;;
    if rowcount =? 0 then
      log e "Unable to add new bot to db" ;;
      ret (false, private)
    else ret (true, private)
  else
    inserted <- lift (insert_bound sch cid tok tick typ private) ;;
    if snd inserted =? 0 then
      log e "Unable to add new bot to db" ;;
      ret (false, private)
    else ret (true, fst inserted).

(** The tickers that are bound in a table, in table order. *)
Definition bound_tickers (tbl : list row) : list string :=
  flat_map (fun r => match ticker r with Some t => [t] | None => [] end) tbl.

(** The number of unclaimed rows. *)
Definition unclaimed_count (tbl : list row) : nat :=
  List.length (filter is_unclaimed tbl).

(** An entry of the catalogue that [crypto_search] reads, and what it means
    for a decoded JSON value to be that entry. *)
Record coin : Type := mkCoin {
  coin_id : string;
  coin_symbol : string;
  coin_name : string
}.

Definition is_coin (x : pyval) (c : coin) : Prop :=
  getitem x "id" = Ret (PStr (coin_id c))
  /\ getitem x "symbol" = Ret (PStr (coin_symbol c))
  /\ getitem x "name" = Ret (PStr (coin_name c)).

Definition coin_matches (key : string) (c : coin) : bool :=
  (Str.contains key (coin_id c)
   || Str.contains key (coin_symbol c)
   || Str.contains key (coin_name c))%bool.

(** The characters of the output of [b64encode]. *)
Definition is_b64_char (c : ascii) : bool :=
  (Str.contains (String c EmptyString) Base64.alphabet || Ascii.eqb c "=")%bool.

Fixpoint all_chars (f : ascii -> bool) (s : string) : bool :=
  match s with
  | EmptyString => true
  | String c r => (f c && all_chars f r)%bool
  end.

Definition is_ascii (c : ascii) : bool := Nat.ltb (nat_of_ascii c) 128.

(** The strings on which [Str.lower] and [Str.upper] are Python's. *)
Definition ascii_only (s : string) : Prop := all_chars is_ascii s = true.

Module SampleMore.

(** The platform echoes the avatar it has stored. *)
Definition photo_ok : env :=
  mkEnv (fun _ => Ret (mkResponse 200 "PNG" None))
        (fun _ _ body => Sample.ok body)
        (http_post Sample.online) (webhook Sample.online) (URL Sample.online).

Definition catalogue : pyval :=
  PList [PDict [("id", PStr "bitcoin"); ("symbol", PStr "btc"); ("name", PStr "Bitcoin")];
         PDict [("id", PStr "ethereum"); ("symbol", PStr "eth"); ("name", PStr "Ethereum")];
         PDict [("id", PStr "wrapped-bitcoin"); ("symbol", PStr "wbtc");
                ("name", PStr "Wrapped Bitcoin")]].

Definition coins : list coin :=
  [mkCoin "bitcoin" "btc" "Bitcoin";
   mkCoin "ethereum" "eth" "Ethereum";
   mkCoin "wrapped-bitcoin" "wbtc" "Wrapped Bitcoin"].

Definition listing : env :=
  mkEnv (fun _ => Sample.ok catalogue) (http_patch Sample.online)
        (http_post Sample.online) (webhook Sample.online) (URL Sample.online).

(** A listing whose second entry has no [id]. *)
Definition btc_entry : pyval :=
  PDict [("id", PStr "bitcoin"); ("symbol", PStr "btc"); ("name", PStr "Bitcoin")].

Definition broken_listing : env :=
  mkEnv (fun _ => Sample.ok (PList [btc_entry; PDict [("symbol", PStr "x")]]))
        (http_patch Sample.online) (http_post Sample.online)
        (webhook Sample.online) (URL Sample.online).

(** As [Sample.online], but the webhook cannot be reached: the call of
    [log] raises. *)
(** The public pool is the file [newbots.db]. *)
Definition is_public (name : string) : bool := String.eqb name "newbots.db".

Definition webhook_down : env :=
  mkEnv (http_get Sample.online) (http_patch Sample.online) (http_post Sample.online)
        (fun _ => Raise ConnectionError) (URL Sample.online).

(** The ticker service answers 500 with a text, and the webhook is reached
    for every message but that text. *)
Definition log_fails_later : env :=
  mkEnv (http_get Sample.online) (http_patch Sample.online)
        (fun _ _ => Ret (mkResponse 500 "bad gateway" None))
        (fun m => if String.eqb m "bad gateway" then Raise ConnectionError
                  else Sample.status 204)
        (URL Sample.online).

End SampleMore.

(** [token] is unique in the table. *)
Definition unique_tokens (tbl : list row) : Prop := NoDup (map token tbl).

(** Uniqueness of the tokens is kept, when the table declares it. *)
Definition tokens_stay_unique (sch : schema) (tbl tbl' : list row) : Prop :=
  unique_token sch = true -> unique_tokens tbl -> unique_tokens tbl'.

(** A ticker in lower case, and the relation that keeps the bound tickers of
    a table so. *)
Definition lower_case (t : string) : Prop := Str.lower t = t.

Definition tickers_stay_lower (tbl tbl' : list row) : Prop :=
  Forall lower_case (bound_tickers tbl) -> Forall lower_case (bound_tickers tbl').

(** * Properties *)

(** ** Strings *)

Lemma lower_ascii_idem (c : ascii) :
  Str.lower_ascii (Str.lower_ascii c) = Str.lower_ascii c.
Proof.
  destruct c as [[] [] [] [] [] [] [] []]; reflexivity.
Qed.

Lemma lower_idem (s : string) : Str.lower (Str.lower s) = Str.lower s.
Proof.
  unfold Str.lower.
  induction s as [|c s IH]; simpl; [reflexivity|].
  now rewrite lower_ascii_idem, IH.
Qed.

(** ** Frame lemmas *)

Section Frame.

Context {A B : Type}.

Lemma frame_ret (a : A) : db_frame (ret a).
Proof. intros st; reflexivity. Qed.

Lemma frame_raise (x : exn) : db_frame (@raise A x).
Proof. intros st; reflexivity. Qed.

Lemma frame_lift (o : outcome A) : db_frame (lift o).
Proof. intros st; reflexivity. Qed.

Lemma frame_bind (m : M A) (k : A -> M B) :
  db_frame m -> (forall a, db_frame (k a)) -> db_frame (bind m k).
Proof.
  intros Hm Hk st. unfold bind.
  specialize (Hm st). destruct (m st) as [[a|x] st']; simpl in *.
  - rewrite Hm. apply Hk.
  - exact Hm.
Qed.

Lemma frame_try_except (m h : M A) :
  db_frame m -> db_frame h -> db_frame (try_except m h).
Proof.
  intros Hm Hh st. unfold try_except.
  specialize (Hm st). destruct (m st) as [[a|x] st']; simpl in *.
  - exact Hm.
  - rewrite Hm. apply Hh.
Qed.

Lemma rel_bind_l (R : list row -> list row -> Prop) (m : M A) (k : A -> M B) :
  db_rel R m -> (forall a, db_frame (k a)) -> db_rel R (bind m k).
Proof.
  intros Hm Hk st. unfold bind.
  specialize (Hm st). destruct (m st) as [[a|x] st']; simpl in *.
  - rewrite <- (Hk a st'). exact Hm.
  - exact Hm.
Qed.

Lemma rel_bind_r (R : list row -> list row -> Prop) (m : M A) (k : A -> M B) :
  (forall tbl, R tbl tbl) ->
  db_frame m -> (forall a, db_rel R (k a)) -> db_rel R (bind m k).
Proof.
  intros HR Hm Hk st. unfold bind.
  specialize (Hm st). destruct (m st) as [[a|x] st']; simpl in *.
  - rewrite Hm. apply Hk.
  - rewrite <- Hm. apply HR.
Qed.

Lemma rel_of_frame (R : list row -> list row -> Prop) (m : M A) :
  (forall tbl, R tbl tbl) -> db_frame m -> db_rel R m.
Proof. intros HR Hm st. rewrite <- (Hm st). apply HR. Qed.

End Frame.

Lemma frame_log e m : db_frame (log e m).
Proof. intros st. unfold log. destruct (webhook e m); reflexivity. Qed.

Lemma frame_patch e url tok body : db_frame (patch e url tok body).
Proof.
  intros st. unfold patch. destruct (http_patch e url tok body) as [r|x]; simpl; [|reflexivity].
  unfold platform_apply. destruct (is_error_status r); [reflexivity|].
  destruct body; try reflexivity.
  destruct (assoc "username" d) as [[]|]; reflexivity.
Qed.

Lemma frame_check_existing_bot t : db_frame (check_existing_bot t).
Proof. intros st; reflexivity. Qed.

Lemma frame_select_unclaimed : db_frame select_unclaimed.
Proof. intros st; reflexivity. Qed.

Lemma frame_raise_for_status r : db_frame (raise_for_status r).
Proof. unfold raise_for_status. destruct (is_error_status r); intros st; reflexivity. Qed.

Lemma frame_resp_json r : db_frame (resp_json r).
Proof. unfold resp_json. destruct (json r); intros st; reflexivity. Qed.

Create HintDb frame.
#[local] Hint Resolve frame_ret frame_raise frame_lift frame_log frame_patch
  frame_check_existing_bot frame_select_unclaimed frame_raise_for_status
  frame_resp_json : frame.

(** Splits a computation along its binds and case distinctions. *)
Ltac frame :=
  repeat first
    [ solve [auto with frame]
    | apply frame_bind; [|intros ?]
    | apply frame_try_except
    | match goal with
      | |- db_frame (match ?x with _ => _ end) => destruct x
      | |- db_frame (post _ _ _) => unfold post
      | |- db_frame (get _ _) => unfold get
      end ].

Lemma frame_change_bot_username e tok u : db_frame (change_bot_username e tok u).
Proof. unfold change_bot_username. frame. Qed.

Lemma frame_create_bot e t n c k b : db_frame (create_bot e t n c k b).
Proof.
  unfold create_bot. cbv zeta. pose proof frame_change_bot_username. frame.
Qed.

Lemma frame_crypto_validate e id : db_frame (crypto_validate e id).
Proof. unfold crypto_validate. frame. Qed.

Lemma frame_stock_validate e id : db_frame (stock_validate e id).
Proof. unfold stock_validate, quote_price. frame. Qed.

#[local] Hint Resolve frame_change_bot_username frame_create_bot
  frame_crypto_validate frame_stock_validate : frame.

(** ** Computations that only read *)

Section Pure.

Context {A B : Type}.

Lemma pure_ret (a : A) : pure (ret a).
Proof. intros st; reflexivity. Qed.

Lemma pure_raise (x : exn) : pure (@raise A x).
Proof. intros st; reflexivity. Qed.

Lemma pure_lift (o : outcome A) : pure (lift o).
Proof. intros st; reflexivity. Qed.

Lemma pure_bind (m : M A) (k : A -> M B) :
  pure m -> (forall a, pure (k a)) -> pure (bind m k).
Proof.
  intros Hm Hk st. unfold bind.
  specialize (Hm st). destruct (m st) as [[a|x] st']; simpl in *; subst.
  - apply Hk.
  - reflexivity.
Qed.

Lemma pure_try_except (m h : M A) : pure m -> pure h -> pure (try_except m h).
Proof.
  intros Hm Hh st. unfold try_except.
  specialize (Hm st). destruct (m st) as [[a|x] st']; simpl in *; subst.
  - reflexivity.
  - apply Hh.
Qed.

(** A computation that only reads is determined by its result. *)
Lemma pure_run {m : M A} {st : state} {o : outcome A} :
  pure m -> result m st = o -> m st = (o, st).
Proof.
  unfold result. intros Hm Ho. specialize (Hm st).
  destruct (m st); simpl in *; congruence.
Qed.

End Pure.

Lemma pure_raise_for_status r : pure (raise_for_status r).
Proof. unfold raise_for_status. destruct (is_error_status r); intros st; reflexivity. Qed.

Lemma pure_resp_json r : pure (resp_json r).
Proof. unfold resp_json. destruct (json r); intros st; reflexivity. Qed.

Lemma pure_check_existing_bot t : pure (check_existing_bot t).
Proof. intros st; reflexivity. Qed.

Create HintDb pure.
#[local] Hint Resolve pure_ret pure_raise pure_lift pure_raise_for_status
  pure_resp_json pure_check_existing_bot : pure.

Ltac pure_tac :=
  repeat first
    [ solve [auto with pure]
    | apply pure_bind; [|intros ?]
    | apply pure_try_except
    | match goal with
      | |- pure (match ?x with _ => _ end) => destruct x
      | |- pure (get _ _) => unfold get
      end ].

Lemma pure_crypto_validate e id : pure (crypto_validate e id).
Proof. unfold crypto_validate. pure_tac. Qed.

Lemma pure_stock_validate e id : pure (stock_validate e id).
Proof. unfold stock_validate, quote_price. pure_tac. Qed.

(** Case distinction on the innermost scrutinee of the goal. *)
Ltac case_innermost :=
  match goal with
  | |- context [match ?x with _ => _ end] =>
      lazymatch x with
      | context [match _ with _ => _ end] => fail
      | _ => destruct x eqn:?
      end
  end.

(** The canonical symbol of a stock is in lower case, and is id and display
    symbol at once. *)
Lemma stock_validate_lower e id st a b :
  result (stock_validate e id) st = Ret (Some (a, b)) ->
  Str.lower a = a /\ b = a.
Proof.
  unfold result, stock_validate, quote_price, bind, try_except, get, lift, ret, py_lower.
  repeat (case_innermost; simpl; try discriminate).
  all: intros H; inversion H; subst; split; auto using lower_idem.
Qed.

(** ** The statements on the table *)

Lemma unique_ids_inj (tbl : list row) (r1 r2 : row) :
  unique_ids tbl -> In r1 tbl -> In r2 tbl ->
  client_id r1 = client_id r2 -> r1 = r2.
Proof.
  unfold unique_ids. induction tbl as [|r tbl IH]; simpl; [tauto|].
  intros Hnd H1 H2 Heq. inversion Hnd as [|? ? Hnot Hnd']; subst.
  destruct H1 as [<-|H1], H2 as [<-|H2]; auto.
  - exfalso. apply Hnot. rewrite Heq. now apply in_map.
  - exfalso. apply Hnot. rewrite <- Heq. now apply in_map.
Qed.

Lemma select_unclaimed_some (tbl : list row) (c k : string) :
  Sql.select_unclaimed tbl = Some (c, k) ->
  exists r, In r tbl /\ ticker r = None /\ client_id r = c /\ token r = k.
Proof.
  unfold Sql.select_unclaimed. destruct (find is_unclaimed tbl) as [r|] eqn:F; [|discriminate].
  intros H; inversion H; subst. apply find_some in F as [Hin Hu].
  exists r. repeat split; auto.
  unfold is_unclaimed in Hu. destruct (ticker r); [discriminate|reflexivity].
Qed.

Lemma select_unclaimed_none (tbl : list row) :
  filter is_unclaimed tbl = [] -> Sql.select_unclaimed tbl = None.
Proof.
  unfold Sql.select_unclaimed. intros H.
  destruct (find is_unclaimed tbl) as [r|] eqn:F; [|reflexivity].
  apply find_some in F as [Hin Hu].
  assert (In r (filter is_unclaimed tbl)) as Hf by (apply filter_In; auto).
  rewrite H in Hf. destruct Hf.
Qed.

Lemma select_by_ticker_none (t : string) (tbl : list row) :
  filter (has_ticker t) tbl = [] -> Sql.select_by_ticker t tbl = None.
Proof.
  unfold Sql.select_by_ticker. intros H.
  destruct (find (has_ticker t) tbl) as [r|] eqn:F; [|reflexivity].
  apply find_some in F as [Hin Hu].
  assert (In r (filter (has_ticker t) tbl)) as Hf by (apply filter_In; auto).
  rewrite H in Hf. destruct Hf.
Qed.

Lemma Forall2_nth_error_l {X Y} {R : X -> Y -> Prop} {l : list X} {l' : list Y} :
  Forall2 R l l' ->
  forall i x, nth_error l i = Some x -> exists y, nth_error l' i = Some y /\ R x y.
Proof.
  induction 1 as [|x0 y0 l l' Hxy _ IH]; intros [|i] x; simpl; try discriminate.
  - intros H; inversion H; subst. eauto.
  - apply IH.
Qed.

(** The UPDATE keeps the rows in place, changes only rows of the given
    [client_id], and its [rowcount] is positive exactly when some row now
    carries the binding. *)
Lemma update_from_shape sch t ty c :
  forall todo before tbl n,
    Sql.update_from sch t ty c before todo = Ret (tbl, n) ->
    exists todo',
      tbl = (before ++ todo')%list
      /\ Forall2 (claimed_from t ty c) todo todo'
      /\ 0 <= n
      /\ (n = 0 -> todo' = todo)
      /\ (n <> 0 -> Exists (fun r' => client_id r' = c /\ ticker r' = Some t) todo').
Proof.
  induction todo as [|r rest IH]; simpl; intros before tbl n H.
  - inversion H; subst. exists []. rewrite app_nil_r.
    repeat split; auto; try lia.
  - assert (Hskip : forall tbl n,
               Sql.update_from sch t ty c (before ++ [r]) rest = Ret (tbl, n) ->
               exists todo',
                 tbl = (before ++ todo')%list
                 /\ Forall2 (claimed_from t ty c) (r :: rest) todo'
                 /\ 0 <= n
                 /\ (n = 0 -> todo' = r :: rest)
                 /\ (n <> 0 -> Exists (fun r' => client_id r' = c /\ ticker r' = Some t) todo')).
    { intros tbl0 n0 H0. apply IH in H0 as (todo' & -> & HF & Hn & Hz & Hnz).
      exists (r :: todo'). rewrite <- app_assoc. simpl.
      split; [reflexivity|]. split; [constructor; [now left|exact HF]|].
      split; [exact Hn|]. split.
      - intros Hn0. now rewrite (Hz Hn0).
      - intros Hn0. apply Exists_cons_tl. auto. }
    destruct (has_client_id c r) eqn:Hc; [|now apply Hskip].
    destruct (unique_ticker sch
              && (existsb (has_ticker t) before || existsb (has_ticker t) rest))%bool.
    + destruct (on_conflict sch); [discriminate|now apply Hskip].
    + destruct (Sql.update_from sch t ty c (before ++ [Sql.set_binding t ty r]) rest)
        as [[tbl0 n0]|x] eqn:H0; [|discriminate].
      inversion H; subst. apply IH in H0 as (todo' & -> & HF & Hn & Hz & Hnz).
      exists (Sql.set_binding t ty r :: todo'). rewrite <- app_assoc. simpl.
      unfold has_client_id in Hc. apply String.eqb_eq in Hc.
      split; [reflexivity|]. split; [constructor; [right; auto|exact HF]|].
      split; [lia|]. split; [intros; lia|].
      intros _. apply Exists_cons_hd. simpl. auto.
Qed.

Lemma update_binding_shape sch t ty c tbl tbl' n :
  Sql.update_binding sch t ty c tbl = Ret (tbl', n) ->
  Forall2 (claimed_from t ty c) tbl tbl'
  /\ 0 <= n
  /\ (n = 0 -> tbl' = tbl)
  /\ (n <> 0 -> Exists (fun r' => client_id r' = c /\ ticker r' = Some t) tbl').
Proof.
  unfold Sql.update_binding. intros H.
  apply update_from_shape in H as (todo' & -> & H). exact H.
Qed.

(** ** Running a computation step by step *)

Lemma bind_ret {A B} {m : M A} (k : A -> M B) {st a st'} :
  m st = (Ret a, st') -> bind m k st = k a st'.
Proof. unfold bind. now intros ->. Qed.

Lemma bind_raise {A B} {m : M A} (k : A -> M B) {st x st'} :
  m st = (Raise x, st') -> bind m k st = (Raise x, st').
Proof. unfold bind. now intros ->. Qed.

Lemma log_run e m st :
  delivers e -> exists z, log e m st = (Ret z, logged m st).
Proof.
  intros Hd. destruct (Hd m) as [r Hr]. exists (status_code r).
  unfold log. now rewrite Hr.
Qed.

Lemma bind_log {B} e m (k : Z -> M B) st :
  delivers e -> exists z, bind (log e m) k st = k z (logged m st).
Proof.
  intros Hd. destruct (log_run e m st Hd) as [z Hz]. exists z.
  now apply bind_ret.
Qed.

(** [get_new_bot] on a pool without unclaimed row and without binding for
    the ticker, whatever the webhook answers: what [log] raises leaves
    [get_new_bot]. *)
Lemma get_new_bot_exhausted_run sch e tick typ st :
  filter is_unclaimed (db st) = [] ->
  filter (has_ticker tick) (db st) = [] ->
  get_new_bot sch e tick typ st
  = match webhook e "Unable to get new bot from db" with
    | Ret _ => (Ret None, logged "Unable to get new bot from db" st)
    | Raise x => (Raise x, st)
    end.
Proof.
  intros Hfree Hnone. unfold get_new_bot.
  assert (Hc : check_existing_bot tick st = (Ret None, st)).
  { unfold check_existing_bot. now rewrite select_by_ticker_none. }
  assert (Hs : select_unclaimed st = (Ret None, st)).
  { unfold select_unclaimed. now rewrite select_unclaimed_none. }
  rewrite (bind_ret _ Hc), (bind_ret _ Hs).
  unfold bind, log, logged, ret.
  now destruct (webhook e "Unable to get new bot from db").
Qed.

(** A computation that only logs a message and returns [v]. *)
Lemma log_then_ret {B} e m (v : B) st :
  bind (log e m) (fun _ => ret v) st
  = match webhook e m with
    | Ret _ => (Ret v, logged m st)
    | Raise x => (Raise x, st)
    end.
Proof. unfold bind, log, logged, ret. now destruct (webhook e m). Qed.

(** C7, as the code has it. On a pool with no unclaimed entry and a ticker
    without binding, the table is left as it was by [get_new_bot], by
    [crypto] and by [stock], whatever the services answer. [get_new_bot]
    passes one message to [log]: it returns the empty result when the webhook
    takes the message and raises what the webhook call raises otherwise.
    [crypto] and [stock], for an ASCII ticker that the validator accepts with
    an ASCII string as canonical id, pass a second message to [log]: they return
    their no-bots-available error when the webhook takes both messages, and
    raise what the first failing webhook call raises otherwise. *)
Theorem pool_exhausted sch e st :
  filter is_unclaimed (db st) = [] ->
  (forall tick typ,
      filter (has_ticker tick) (db st) = [] ->
      result (get_new_bot sch e tick typ) st
      = match webhook e "Unable to get new bot from db" with
        | Ret _ => Ret None
        | Raise x => Raise x
        end
      /\ db (after (get_new_bot sch e tick typ) st) = db st)
  /\ (forall id cg sym,
         ascii_only id ->
         ascii_only cg ->
         result (crypto_validate e (Str.lower id)) st = Ret (Some (PStr cg, sym)) ->
         filter (has_ticker cg) (db st) = [] ->
         result (crypto sch e id) st
         = after_two_logs e "Unable to get new bot from db" "no more new bots avalible"
             (PDict [("error", PStr "there are no more unclaimed bots. come back tomorrow and there might be more available")])
         /\ db (after (crypto sch e id) st) = db st)
  /\ (forall id y sym,
         ascii_only id ->
         ascii_only y ->
         result (stock_validate e (Str.lower id)) st = Ret (Some (y, sym)) ->
         filter (has_ticker y) (db st) = [] ->
         result (stock sch e id) st
         = after_two_logs e "Unable to get new bot from db" "no more new bots avalible"
             (PDict [("error", PStr "no more new bots avalible")])
         /\ db (after (stock sch e id) st) = db st).
Proof.
  intros Hfree. split; [|split].
  - intros tick typ Hnone. unfold result, after.
    rewrite (get_new_bot_exhausted_run sch e tick typ st Hfree Hnone).
    now destruct (webhook e "Unable to get new bot from db").
  - intros id cg sym _ _ Hv Hnone. unfold result, after, crypto, after_two_logs.
    rewrite (bind_ret _ (pure_run (pure_crypto_validate e _) Hv)).
    pose proof (get_new_bot_exhausted_run sch e cg "crypto" st Hfree Hnone) as Hg.
    destruct (webhook e "Unable to get new bot from db") as [r|x].
    + rewrite (bind_ret _ Hg), log_then_ret.
      now destruct (webhook e "no more new bots avalible").
    + now rewrite (bind_raise _ Hg).
  - intros id y sym _ _ Hv Hnone. unfold result, after, stock, after_two_logs.
    rewrite (bind_ret _ (pure_run (pure_stock_validate e _) Hv)).
    pose proof (get_new_bot_exhausted_run sch e y "stock" st Hfree Hnone) as Hg.
    destruct (webhook e "Unable to get new bot from db") as [r|x].
    + rewrite (bind_ret _ Hg), log_then_ret.
      now destruct (webhook e "no more new bots avalible").
    + now rewrite (bind_raise _ Hg).
Qed.

Lemma pool_exhausted_witness :
  result (crypto spec_schema Sample.online "Bitcoin")
         (Sample.world [Sample.bound1 "eth" "crypto"])
  = Ret (PDict [("error", PStr "there are no more unclaimed bots. come back tomorrow and there might be more available")])
  /\ db (after (crypto spec_schema Sample.online "Bitcoin")
               (Sample.world [Sample.bound1 "eth" "crypto"]))
     = [Sample.bound1 "eth" "crypto"].
Proof.
  refine (proj1 (proj2 (pool_exhausted spec_schema Sample.online
                          (Sample.world [Sample.bound1 "eth" "crypto"])
                          eq_refl))
                "Bitcoin" "bitcoin" (PStr "btc") _ _ _ _); reflexivity.
Defined.

(** C7, as the claim has it: with the admin webhook out of reach, on a pool
    whose only row is bound to another ticker, [get_new_bot] raises
    [ConnectionError] instead of returning the empty result, and so does
    [crypto]. *)
Lemma exhausted_pool_raises_without_webhook :
  result (get_new_bot spec_schema SampleMore.webhook_down "bitcoin" "crypto")
         (Sample.world [Sample.bound1 "eth" "crypto"])
  = Raise ConnectionError
  /\ result (crypto spec_schema SampleMore.webhook_down "Bitcoin")
            (Sample.world [Sample.bound1 "eth" "crypto"])
     = Raise ConnectionError
  /\ filter is_unclaimed (db (Sample.world [Sample.bound1 "eth" "crypto"])) = []
  /\ filter (has_ticker "bitcoin") (db (Sample.world [Sample.bound1 "eth" "crypto"])) = [].
Proof. repeat split; reflexivity. Qed.

(** ** What [get_new_bot] returns, and what it did to the table *)

Lemma get_new_bot_cases sch e t ty st c o st' :
  get_new_bot sch e t ty st = (Ret (Some (c, o)), st') ->
  (o = None /\ st' = st
   /\ exists k, Sql.select_by_ticker t (db st) = Some (c, k))
  \/ (exists k n,
         o = Some k
         /\ Sql.select_by_ticker t (db st) = None
         /\ Sql.select_unclaimed (db st) = Some (c, k)
         /\ Sql.update_binding sch (Str.lower t) ty c (db st) = Ret (db st', n)
         /\ n <> 0
         /\ st' = with_db (db st') st).
Proof.
  unfold get_new_bot, bind, check_existing_bot, select_unclaimed, execute_claim, ret, log.
  destruct (Sql.select_by_ticker t (db st)) as [[c0 k0]|] eqn:Hsel.
  - intros H; inversion H; subst. left. eauto.
  - destruct (Sql.select_unclaimed (db st)) as [[c1 k1]|] eqn:Hfree.
    + destruct (Sql.update_binding sch (Str.lower t) ty c1 (db st)) as [[tbl n]|x] eqn:Hup;
        [|discriminate].
      destruct (n =? 0) eqn:Hn.
      * destruct (webhook e _); discriminate.
      * intros H; inversion H; subst. right. exists k1, n.
        apply Z.eqb_neq in Hn. simpl. auto 10.
    + destruct (webhook e _); discriminate.
Qed.

Lemma permanence_refl tbl : permanence tbl tbl.
Proof. intros _ i r H _. exact H. Qed.

Lemma claim_keeps_bindings sch t ty c k tbl tbl' n :
  unique_ids tbl ->
  Sql.select_unclaimed tbl = Some (c, k) ->
  Sql.update_binding sch t ty c tbl = Ret (tbl', n) ->
  keeps_bindings tbl tbl'.
Proof.
  intros Hu Hfree Hup i r Hi Hbound.
  apply update_binding_shape in Hup as (HF & _).
  destruct (Forall2_nth_error_l HF i r Hi) as (r' & Hi' & [->|[Hc _]]); [exact Hi'|].
  apply select_unclaimed_some in Hfree as (r0 & Hin0 & Hnull & Hc0 & _).
  assert (r = r0) as ->.
  { apply (unique_ids_inj tbl); auto; [eapply nth_error_In; eauto|congruence]. }
  contradiction.
Qed.

Lemma keeps_bindings_refl tbl : keeps_bindings tbl tbl.
Proof. intros i r H _. exact H. Qed.

Lemma get_new_bot_permanence sch e t ty : db_rel permanence (get_new_bot sch e t ty).
Proof.
  intros st Hu.
  unfold get_new_bot, bind, check_existing_bot, select_unclaimed, execute_claim, ret, log.
  destruct (Sql.select_by_ticker t (db st)) as [[c0 k0]|]; simpl;
    [now apply keeps_bindings_refl|].
  destruct (Sql.select_unclaimed (db st)) as [[c1 k1]|] eqn:Hfree.
  - destruct (Sql.update_binding sch (Str.lower t) ty c1 (db st)) as [[tbl n]|x] eqn:Hup;
      simpl; [|now apply keeps_bindings_refl].
    assert (keeps_bindings (db st) tbl) by (eapply claim_keeps_bindings; eauto).
    destruct (n =? 0); simpl; [destruct (webhook e _)|]; simpl; assumption.
  - destruct (webhook e _); simpl; now apply keeps_bindings_refl.
Qed.

Lemma execute_insert_permanence sch c k : db_rel permanence (execute_insert sch c k).
Proof.
  intros st _. unfold execute_insert, Sql.insert_unclaimed.
  destruct (_ || _)%bool.
  - destruct (on_conflict sch); simpl; now apply keeps_bindings_refl.
  - simpl. intros i r Hi _. rewrite nth_error_app1; [exact Hi|].
    apply nth_error_Some. congruence.
Qed.

Lemma crypto_permanence sch e id : db_rel permanence (crypto sch e id).
Proof.
  unfold crypto.
  apply rel_bind_r; [exact permanence_refl|auto with frame|].
  intros [[[] sym]|];
    try solve [apply rel_of_frame; [exact permanence_refl|frame]].
  apply rel_bind_l; [apply get_new_bot_permanence|intros ?; frame].
Qed.

Lemma stock_permanence sch e id : db_rel permanence (stock sch e id).
Proof.
  unfold stock.
  apply rel_bind_r; [exact permanence_refl|auto with frame|].
  intros [[y sym]|];
    try solve [apply rel_of_frame; [exact permanence_refl|frame]].
  apply rel_bind_l; [apply get_new_bot_permanence|intros ?; frame].
Qed.

Lemma add_bot_permanence sch e c k : db_rel permanence (add_bot sch e c k).
Proof.
  unfold add_bot.
  apply rel_bind_r; [exact permanence_refl|auto with frame|].
  intros renamed. destruct (negb (truthy renamed)).
  - apply rel_of_frame; [exact permanence_refl|frame].
  - apply rel_bind_l; [apply execute_insert_permanence|intros ?; frame].
Qed.

(** ** Branding a claimed bot *)

(** What the rename returns depends on the platform's answer only. *)
Lemma change_bot_username_result e tok u st st' :
  result (change_bot_username e tok u) st = result (change_bot_username e tok u) st'.
Proof.
  unfold result, change_bot_username, bind, patch, try_except, raise_for_status,
    resp_json, lift, ret, raise.
  destruct (http_patch e _ _ _) as [r|x]; simpl; [|reflexivity].
  destruct (is_error_status r); simpl; [reflexivity|].
  destruct (json r); reflexivity.
Qed.

(** The display names the rename leaves depend on the names it found. *)
Lemma change_bot_username_names e tok u st st' :
  names st = names st' ->
  names (after (change_bot_username e tok u) st)
  = names (after (change_bot_username e tok u) st').
Proof.
  intros Hn.
  unfold after, change_bot_username, bind, patch, try_except, raise_for_status,
    resp_json, lift, ret, raise, platform_apply.
  destruct (http_patch e _ _ _) as [r|x]; simpl; [|exact Hn].
  destruct (is_error_status r); simpl; [exact Hn|].
  destruct (json r); simpl; now rewrite Hn.
Qed.

Lemma get_new_bot_names sch e t ty st :
  names (after (get_new_bot sch e t ty) st) = names st.
Proof.
  unfold after, get_new_bot, bind, check_existing_bot, select_unclaimed,
    execute_claim, log, ret, with_db.
  repeat (case_innermost; simpl); reflexivity.
Qed.

Lemma create_bot_refused e t n c k b st resp :
  http_post e (URL e ++ "/ticker") (bot_data t n k b) = Ret resp ->
  status_code resp <> 200 ->
  delivers e ->
  create_bot e t n c k b st = (Ret false, logged (text resp) st).
Proof.
  intros Hp Hs Hd. unfold create_bot, post, lift, bind. cbv zeta. rewrite Hp.
  apply Z.eqb_neq in Hs. rewrite Hs.
  destruct (log_run e (text resp) st Hd) as [z ->]. reflexivity.
Qed.

Lemma create_bot_started e t n c k b st resp v :
  http_post e (URL e ++ "/ticker") (bot_data t n k b) = Ret resp ->
  status_code resp = 200 ->
  result (change_bot_username e k n) st = Ret v ->
  create_bot e t n c k b st = (Ret true, after (change_bot_username e k n) st).
Proof.
  intros Hp Hs Hr. unfold create_bot, post, lift, bind. cbv zeta. rewrite Hp.
  apply Z.eqb_eq in Hs. rewrite Hs.
  unfold result, after in *. destruct (change_bot_username e k n st) as [o s].
  simpl in *. subst. reflexivity.
Qed.

(** What the rename raises leaves [create_bot]. *)
Lemma create_bot_rename_raises e t n c k b st resp x :
  http_post e (URL e ++ "/ticker") (bot_data t n k b) = Ret resp ->
  status_code resp = 200 ->
  result (change_bot_username e k n) st = Raise x ->
  create_bot e t n c k b st = (Raise x, after (change_bot_username e k n) st).
Proof.
  intros Hp Hs Hr. unfold create_bot, post, lift, bind. cbv zeta. rewrite Hp.
  apply Z.eqb_eq in Hs. rewrite Hs.
  unfold result, after in *. destruct (change_bot_username e k n st) as [o s].
  simpl in *. subst. reflexivity.
Qed.

Lemma crypto_fresh_claim sch e id st cg sym c k st1 :
  result (crypto_validate e (Str.lower id)) st = Ret (Some (PStr cg, sym)) ->
  get_new_bot sch e cg "crypto" st = (Ret (Some (c, Some k)), st1) ->
  Str.is_empty k = false ->
  delivers e ->
  crypto sch e id st
  = brand e "crypto" sym cg c k true (logged ("attempting to create new bot: " ++ id) st1).
Proof.
  intros Hv Hg Hk Hd. unfold crypto.
  rewrite (bind_ret _ (pure_run (pure_crypto_validate e _) Hv)).
  rewrite (bind_ret _ Hg).
  change (no_token (Some k)) with (Str.is_empty k). rewrite Hk.
  match goal with
  | |- context [bind (log e ?m) ?k ?s] => destruct (bind_log e m k s Hd) as [z ->]
  end.
  reflexivity.
Qed.

Lemma stock_fresh_claim sch e id st y sym c k st1 :
  result (stock_validate e (Str.lower id)) st = Ret (Some (y, sym)) ->
  get_new_bot sch e y "stock" st = (Ret (Some (c, Some k)), st1) ->
  Str.is_empty k = false ->
  delivers e ->
  stock sch e id st
  = brand e "stock" (PStr sym) y c k false
          (logged ("attempting to create new bot: " ++ id) st1).
Proof.
  intros Hv Hg Hk Hd. unfold stock.
  rewrite (bind_ret _ (pure_run (pure_stock_validate e _) Hv)).
  rewrite (bind_ret _ Hg).
  change (no_token (Some k)) with (Str.is_empty k). rewrite Hk.
  match goal with
  | |- context [bind (log e ?m) ?k ?s] => destruct (bind_log e m k s Hd) as [z ->]
  end.
  reflexivity.
Qed.

Lemma brand_refused e kind sym name c k b st resp :
  http_post e (URL e ++ "/ticker") (bot_data sym name k b) = Ret resp ->
  status_code resp <> 200 ->
  delivers e ->
  brand e kind sym name c k b st
  = (Ret (PDict [("error", PStr TROUBLE)]), logged (text resp) st).
Proof.
  intros Hp Hs Hd. unfold brand.
  now rewrite (bind_ret _ (create_bot_refused e sym name c k b st resp Hp Hs Hd)).
Qed.

Lemma brand_started e kind sym name c k b st resp v :
  http_post e (URL e ++ "/ticker") (bot_data sym name k b) = Ret resp ->
  status_code resp = 200 ->
  result (change_bot_username e k name) st = Ret v ->
  delivers e ->
  brand e kind sym name c k b st
  = (Ret (PDict [("client_id", PStr c)]),
     logged (invite kind (fstring sym) c) (after (change_bot_username e k name) st)).
Proof.
  intros Hp Hs Hr Hd. unfold brand.
  rewrite (bind_ret _ (create_bot_started e sym name c k b st resp v Hp Hs Hr)).
  match goal with
  | |- context [bind (log e ?m) ?k ?s] => destruct (bind_log e m k s Hd) as [z ->]
  end.
  reflexivity.
Qed.

Lemma brand_rename_raises e kind sym name c k b st resp x :
  http_post e (URL e ++ "/ticker") (bot_data sym name k b) = Ret resp ->
  status_code resp = 200 ->
  result (change_bot_username e k name) st = Raise x ->
  brand e kind sym name c k b st
  = (Raise x, after (change_bot_username e k name) st).
Proof.
  intros Hp Hs Hr. unfold brand.
  now rewrite (bind_raise _ (create_bot_rename_raises e sym name c k b st resp x Hp Hs Hr)).
Qed.

(** A fresh claim leaves a row of the claimed [client_id] bound to the
    lower-cased ticker. *)
Lemma fresh_claim_bound sch e t ty st c k st1 :
  get_new_bot sch e t ty st = (Ret (Some (c, Some k)), st1) ->
  exists r, In r (db st1) /\ client_id r = c /\ ticker r = Some (Str.lower t).
Proof.
  intros H. apply get_new_bot_cases in H as [(Ho & _)|(k' & n & Ho & _ & _ & Hup & Hn & _)];
    [discriminate|].
  apply update_binding_shape in Hup as (_ & _ & _ & Hex).
  apply Exists_exists in Hex; auto.
Qed.

(** ** The answer of an allocation once the validator has accepted *)

Lemma crypto_respond sch e id st cg sym :
  result (crypto_validate e (Str.lower id)) st = Ret (Some (PStr cg, sym)) ->
  crypto sch e id st
  = bind (get_new_bot sch e cg "crypto")
         (respond e id "crypto" SORRY_CRYPTO true cg sym) st.
Proof.
  intros Hv. unfold crypto.
  now rewrite (bind_ret _ (pure_run (pure_crypto_validate e _) Hv)).
Qed.

Lemma stock_respond sch e id st y sym :
  result (stock_validate e (Str.lower id)) st = Ret (Some (y, sym)) ->
  stock sch e id st
  = bind (get_new_bot sch e y "stock")
         (respond e id "stock" SORRY_STOCK false y (PStr sym)) st.
Proof.
  intros Hv. unfold stock.
  now rewrite (bind_ret _ (pure_run (pure_stock_validate e _) Hv)).
Qed.

Lemma frame_respond e id kind sorry b name sym bd :
  db_frame (respond e id kind sorry b name sym bd).
Proof. unfold respond. frame. Qed.

(** The table after a request that the validator has accepted is the table
    that [get_new_bot] left. *)
Lemma crypto_keeps_claim sch e id st cg sym :
  result (crypto_validate e (Str.lower id)) st = Ret (Some (PStr cg, sym)) ->
  db (after (crypto sch e id) st) = db (after (get_new_bot sch e cg "crypto") st).
Proof.
  intros Hv. unfold after. rewrite (crypto_respond sch e id st cg sym Hv).
  unfold bind. destruct (get_new_bot sch e cg "crypto" st) as [[bd|x] s]; [|reflexivity].
  simpl. symmetry. apply frame_respond.
Qed.

Lemma stock_keeps_claim sch e id st y sym :
  result (stock_validate e (Str.lower id)) st = Ret (Some (y, sym)) ->
  db (after (stock sch e id) st) = db (after (get_new_bot sch e y "stock") st).
Proof.
  intros Hv. unfold after. rewrite (stock_respond sch e id st y sym Hv).
  unfold bind. destruct (get_new_bot sch e y "stock" st) as [[bd|x] s]; [|reflexivity].
  simpl. symmetry. apply frame_respond.
Qed.





Lemma get_new_bot_reuses sch e t ty st c k :
  Sql.select_by_ticker t (db st) = Some (c, k) ->
  get_new_bot sch e t ty st = (Ret (Some (c, None)), st).
Proof.
  intros H. unfold get_new_bot, bind, check_existing_bot. now rewrite H.
Qed.

Lemma run_eq {A} (m : M A) st o : result m st = o -> m st = (o, after m st).
Proof. unfold result, after. destruct (m st). simpl. now intros ->. Qed.


(** ** Uniqueness of client ids is an invariant *)

Lemma ids_stay_unique_refl sch tbl : ids_stay_unique sch tbl tbl.
Proof. intros _ H. exact H. Qed.

Lemma Forall2_claimed_ids t ty c (tbl tbl' : list row) :
  Forall2 (claimed_from t ty c) tbl tbl' ->
  map client_id tbl' = map client_id tbl.
Proof.
  induction 1 as [|r r' l l' [->|[_ ->]] _ IH]; simpl; congruence.
Qed.

Lemma get_new_bot_ids sch e t ty : db_rel (ids_stay_unique sch) (get_new_bot sch e t ty).
Proof.
  intros st _ Hu.
  unfold get_new_bot, bind, check_existing_bot, select_unclaimed, execute_claim, ret, log.
  destruct (Sql.select_by_ticker t (db st)) as [[c0 k0]|]; simpl; [exact Hu|].
  destruct (Sql.select_unclaimed (db st)) as [[c1 k1]|].
  - destruct (Sql.update_binding sch (Str.lower t) ty c1 (db st)) as [[tbl n]|x] eqn:Hup;
      simpl; [|exact Hu].
    assert (unique_ids tbl).
    { apply update_binding_shape in Hup as (HF & _).
      unfold unique_ids. now rewrite (Forall2_claimed_ids _ _ _ _ _ HF). }
    destruct (n =? 0); simpl; [destruct (webhook e _)|]; simpl; assumption.
  - destruct (webhook e _); simpl; exact Hu.
Qed.

Lemma existsb_client_id c tbl :
  existsb (has_client_id c) tbl = false -> ~ In c (map client_id tbl).
Proof.
  intros H Hin. apply in_map_iff in Hin as (r & <- & Hr).
  assert (existsb (has_client_id (client_id r)) tbl = true) as Ht.
  { apply existsb_exists. exists r. split; [exact Hr|apply String.eqb_refl]. }
  congruence.
Qed.

Lemma execute_insert_ids sch c k : db_rel (ids_stay_unique sch) (execute_insert sch c k).
Proof.
  intros st Hs Hu. unfold execute_insert, Sql.insert_unclaimed. rewrite Hs. simpl andb.
  destruct (existsb (has_client_id c) (db st)) eqn:Hc; simpl.
  - destruct (on_conflict sch); exact Hu.
  - destruct (unique_token sch && _)%bool.
    + destruct (on_conflict sch); exact Hu.
    + simpl. unfold unique_ids in *. rewrite map_app. simpl.
      apply NoDup_app_remove_l with (l := []).
      apply existsb_client_id in Hc.
      apply NoDup_rev in Hu. rewrite <- (rev_involutive (map client_id (db st) ++ [c])).
      apply NoDup_rev. rewrite rev_app_distr. simpl.
      constructor; [now rewrite <- in_rev|exact Hu].
Qed.

Lemma crypto_ids sch e id : db_rel (ids_stay_unique sch) (crypto sch e id).
Proof.
  unfold crypto.
  apply rel_bind_r; [exact (ids_stay_unique_refl sch)|auto with frame|].
  intros [[[] sym]|];
    try solve [apply rel_of_frame; [exact (ids_stay_unique_refl sch)|frame]].
  apply rel_bind_l; [apply get_new_bot_ids|intros ?; frame].
Qed.

Lemma stock_ids sch e id : db_rel (ids_stay_unique sch) (stock sch e id).
Proof.
  unfold stock.
  apply rel_bind_r; [exact (ids_stay_unique_refl sch)|auto with frame|].
  intros [[y sym]|];
    try solve [apply rel_of_frame; [exact (ids_stay_unique_refl sch)|frame]].
  apply rel_bind_l; [apply get_new_bot_ids|intros ?; frame].
Qed.

Lemma add_bot_ids sch e c k : db_rel (ids_stay_unique sch) (add_bot sch e c k).
Proof.
  unfold add_bot.
  apply rel_bind_r; [exact (ids_stay_unique_refl sch)|auto with frame|].
  intros renamed. destruct (negb (truthy renamed)).
  - apply rel_of_frame; [exact (ids_stay_unique_refl sch)|frame].
  - apply rel_bind_l; [apply execute_insert_ids|intros ?; frame].
Qed.

(** With client ids declared unique, every operation of the core keeps them
    unique: the hypothesis of the irreversibility property carries over from
    one operation to the next. *)
Lemma unique_ids_invariant sch e op st :
  unique_client_id sch = true ->
  unique_ids (db st) -> unique_ids (db (run_op sch e op st)).
Proof.
  intros Hs Hu. destruct op as [t ty|t|id|id|c k]; unfold run_op, after.
  - now apply get_new_bot_ids.
  - exact Hu.
  - now apply crypto_ids.
  - now apply stock_ids.
  - now apply add_bot_ids.
Qed.

(** ** Irreversibility of a binding *)

Lemma run_op_permanence sch e op st :
  unique_ids (db st) -> keeps_bindings (db st) (db (run_op sch e op st)).
Proof.
  intros Hu. destruct op as [t ty|t|id|id|c k]; unfold run_op, after.
  - now apply get_new_bot_permanence.
  - apply keeps_bindings_refl.
  - now apply crypto_permanence.
  - now apply stock_permanence.
  - now apply add_bot_permanence.
Qed.

Lemma keeps_bindings_trans a b c :
  keeps_bindings a b -> keeps_bindings b c -> keeps_bindings a c.
Proof. intros Hab Hbc i r Hi Hr. apply Hbc; auto. Qed.

Lemma run_ops_permanence sch ops :
  unique_client_id sch = true ->
  forall st, unique_ids (db st) -> keeps_bindings (db st) (db (run_ops sch ops st)).
Proof.
  intros Hs. induction ops as [|[e op] ops IH]; simpl; intros st Hu.
  - apply keeps_bindings_refl.
  - apply keeps_bindings_trans with (b := db (run_op sch e op st)).
    + now apply run_op_permanence.
    + apply IH. now apply unique_ids_invariant.
Qed.

(** C2, as the code has it. On a table with unique client ids, no operation
    of the core that runs from its first statement to its last without another
    caller in between changes or clears the ticker of a bound row: after
    [get_new_bot], [check_existing_bot], [crypto], [stock] or [add_bot],
    whatever it returned or raised, every bound row is unchanged at its place;
    with client ids declared unique in the table, the same holds after any
    sequence of these operations. When a request for an ASCII ticker, accepted
    by the validator with an ASCII string as canonical id, has claimed a fresh
    row, the table after the request is the table the claim left, whatever the
    services answer afterwards, and a row of the claimed client id is bound to
    the lower-cased canonical id: the claim is not rolled back. When moreover
    the token of the row is not empty, the ticker service answers the start of
    the bot with a status other than 200 and the webhook takes the messages,
    the request returns the error. *)
Theorem bindings_are_permanent sch e st :
  unique_ids (db st) ->
  (forall op, keeps_bindings (db st) (db (run_op sch e op st)))
  /\ (unique_client_id sch = true ->
      forall ops, keeps_bindings (db st) (db (run_ops sch ops st)))
  /\ (forall id cg sym c k,
         ascii_only id ->
         ascii_only cg ->
         result (crypto_validate e (Str.lower id)) st = Ret (Some (PStr cg, sym)) ->
         result (get_new_bot sch e cg "crypto") st = Ret (Some (c, Some k)) ->
         db (after (crypto sch e id) st) = db (after (get_new_bot sch e cg "crypto") st)
         /\ (exists r, In r (db (after (crypto sch e id) st))
                       /\ client_id r = c /\ ticker r = Some (Str.lower cg))
         /\ (forall resp,
                Str.is_empty k = false ->
                http_post e (URL e ++ "/ticker") (bot_data sym cg k true) = Ret resp ->
                status_code resp <> 200 ->
                delivers e ->
                result (crypto sch e id) st = Ret (PDict [("error", PStr TROUBLE)])))
  /\ (forall id y sym c k,
         ascii_only id ->
         ascii_only y ->
         result (stock_validate e (Str.lower id)) st = Ret (Some (y, sym)) ->
         result (get_new_bot sch e y "stock") st = Ret (Some (c, Some k)) ->
         db (after (stock sch e id) st) = db (after (get_new_bot sch e y "stock") st)
         /\ (exists r, In r (db (after (stock sch e id) st))
                       /\ client_id r = c /\ ticker r = Some (Str.lower y))
         /\ (forall resp,
                Str.is_empty k = false ->
                http_post e (URL e ++ "/ticker") (bot_data (PStr sym) y k false) = Ret resp ->
                status_code resp <> 200 ->
                delivers e ->
                result (stock sch e id) st = Ret (PDict [("error", PStr TROUBLE)]))).
Proof.
  intros Hu. split; [|split; [|split]].
  - intros op. now apply run_op_permanence.
  - intros Hs ops. now apply run_ops_permanence.
  - intros id cg sym c k _ _ Hv Hg.
    apply run_eq in Hg.
    pose proof (crypto_keeps_claim sch e id st cg sym Hv) as Hdb.
    split; [exact Hdb|]. split.
    + rewrite Hdb. exact (fresh_claim_bound _ _ _ _ _ _ _ _ Hg).
    + intros resp Hk Hp Hs Hd. unfold result.
      rewrite (crypto_fresh_claim sch e id st cg sym c k _ Hv Hg Hk Hd).
      now rewrite (brand_refused e "crypto" sym cg c k true _ resp Hp Hs Hd).
  - intros id y sym c k _ _ Hv Hg.
    apply run_eq in Hg.
    pose proof (stock_keeps_claim sch e id st y sym Hv) as Hdb.
    split; [exact Hdb|]. split.
    + rewrite Hdb. exact (fresh_claim_bound _ _ _ _ _ _ _ _ Hg).
    + intros resp Hk Hp Hs Hd. unfold result.
      rewrite (stock_fresh_claim sch e id st y sym c k _ Hv Hg Hk Hd).
      now rewrite (brand_refused e "stock" (PStr sym) y c k false _ resp Hp Hs Hd).
Qed.

Lemma bindings_are_permanent_witness :
  nth_error
    (db (run_op spec_schema Sample.start_fails (Op_crypto "Bitcoin")
                (Sample.world [Sample.bound1 "eth" "crypto"; Sample.free2])))
    0
  = Some (Sample.bound1 "eth" "crypto")
  /\ db (after (crypto spec_schema Sample.start_fails "Bitcoin")
               (Sample.world [Sample.bound1 "eth" "crypto"; Sample.free2]))
     = [Sample.bound1 "eth" "crypto"; mkRow "c2" "t2" (Some "bitcoin") (Some "crypto")]
  /\ result (crypto spec_schema Sample.start_fails "Bitcoin")
            (Sample.world [Sample.bound1 "eth" "crypto"; Sample.free2])
     = Ret (PDict [("error", PStr TROUBLE)]).
Proof.
  assert (Hu : unique_ids (db (Sample.world [Sample.bound1 "eth" "crypto"; Sample.free2]))).
  { unfold unique_ids. simpl. repeat constructor; simpl; intuition discriminate. }
  destruct (bindings_are_permanent spec_schema Sample.start_fails _ Hu) as (H1 & _ & H2 & _).
  split; [|split].
  - apply (H1 (Op_crypto "Bitcoin") 0%nat); [reflexivity|discriminate].
  - refine (proj1 (H2 "Bitcoin" "bitcoin" (PStr "btc") "c2" "t2" _ _ _ _)); reflexivity.
  - refine (proj2 (proj2 (H2 "Bitcoin" "bitcoin" (PStr "btc") "c2" "t2" _ _ _ _))
                  (mkResponse 500 "" None) _ _ _ (fun m => ex_intro _ _ eq_refl));
      try reflexivity.
    discriminate.
Defined.

(** C2 as stated fails twice. With two callers of [get_new_bot] whose
    statements alternate on a pool of one unclaimed row, the first UPDATE binds
    the row to [btc] and the second, matching by client id alone, rewrites the
    bound ticker to [eth]. And when the ticker service refuses the start with
    a message that the webhook does not take, the request that has claimed the
    row returns no error: it raises what the webhook call raised, the row
    bound. *)
Lemma bound_ticker_is_rewritten :
  db (snd (Race.run spec_schema Sample.online [0; 1; 0; 1; 0]%nat
             [Race.start "btc" "crypto"; Race.start "eth" "crypto"]
             (Sample.world [Sample.free1])))
  = [Sample.bound1 "btc" "crypto"]
  /\ db (snd (Race.run spec_schema Sample.online [0; 1; 0; 1; 0; 1]%nat
                [Race.start "btc" "crypto"; Race.start "eth" "crypto"]
                (Sample.world [Sample.free1])))
     = [Sample.bound1 "eth" "crypto"]
  /\ result (crypto spec_schema SampleMore.log_fails_later "Bitcoin")
            (Sample.world [Sample.free1])
     = Raise ConnectionError
  /\ db (after (crypto spec_schema SampleMore.log_fails_later "Bitcoin")
               (Sample.world [Sample.free1]))
     = [Sample.bound1 "bitcoin" "crypto"].
Proof. repeat split; reflexivity. Qed.

(** ** Idempotence of an allocation *)




(** ** The outcome of branding *)

(** C4, as amended. For a request for an ASCII ticker, accepted by the
    validator (for [crypto] with a string as canonical id), that has claimed a
    fresh row whose token is not empty, and whose messages the webhook takes,
    the start request to the ticker service decides. Answered with a status
    other than 200, the request returns the error [having trouble starting new
    bot]. Answered with 200, the rename is attempted with the token of the row
    and the canonical id: when it returns, the request returns the client id
    whatever value the rename returned, [False] of a failed rename included,
    and the display names on the platform are those the rename left; when it
    raises, the request raises the same. *)
Theorem start_request_decides sch e st :
  delivers e ->
  (forall id cg sym c k resp,
      ascii_only id ->
      ascii_only cg ->
      result (crypto_validate e (Str.lower id)) st = Ret (Some (PStr cg, sym)) ->
      result (get_new_bot sch e cg "crypto") st = Ret (Some (c, Some k)) ->
      Str.is_empty k = false ->
      http_post e (URL e ++ "/ticker") (bot_data sym cg k true) = Ret resp ->
      (status_code resp <> 200 ->
       result (crypto sch e id) st = Ret (PDict [("error", PStr TROUBLE)]))
      /\ (status_code resp = 200 ->
          (forall v, result (change_bot_username e k cg) st = Ret v ->
                     result (crypto sch e id) st = Ret (PDict [("client_id", PStr c)])
                     /\ names (after (crypto sch e id) st)
                        = names (after (change_bot_username e k cg) st))
          /\ (forall x, result (change_bot_username e k cg) st = Raise x ->
                        result (crypto sch e id) st = Raise x)))
  /\ (forall id y sym c k resp,
         ascii_only id ->
         ascii_only y ->
         result (stock_validate e (Str.lower id)) st = Ret (Some (y, sym)) ->
         result (get_new_bot sch e y "stock") st = Ret (Some (c, Some k)) ->
         Str.is_empty k = false ->
         http_post e (URL e ++ "/ticker") (bot_data (PStr sym) y k false) = Ret resp ->
         (status_code resp <> 200 ->
          result (stock sch e id) st = Ret (PDict [("error", PStr TROUBLE)]))
         /\ (status_code resp = 200 ->
             (forall v, result (change_bot_username e k y) st = Ret v ->
                        result (stock sch e id) st = Ret (PDict [("client_id", PStr c)])
                        /\ names (after (stock sch e id) st)
                           = names (after (change_bot_username e k y) st))
             /\ (forall x, result (change_bot_username e k y) st = Raise x ->
                           result (stock sch e id) st = Raise x))).
Proof.
  intros Hd. split.
  - intros id cg sym c k resp _ _ Hv Hg Hk Hp.
    apply run_eq in Hg. unfold result at 1 3 5, after at 1.
    rewrite (crypto_fresh_claim sch e id st cg sym c k _ Hv Hg Hk Hd).
    set (st1 := logged ("attempting to create new bot: " ++ id)
                       (after (get_new_bot sch e cg "crypto") st)).
    assert (Hn : names st1 = names st) by apply get_new_bot_names.
    split; [|split].
    + intros Hs. now rewrite (brand_refused e "crypto" sym cg c k true _ resp Hp Hs Hd).
    + intros v Hr.
      rewrite (change_bot_username_result e k cg st st1) in Hr.
      rewrite (brand_started e "crypto" sym cg c k true _ resp v Hp H Hr Hd).
      split; [reflexivity|]. simpl.
      now apply change_bot_username_names.
    + intros x Hr.
      rewrite (change_bot_username_result e k cg st st1) in Hr.
      now rewrite (brand_rename_raises e "crypto" sym cg c k true _ resp x Hp H Hr).
  - intros id y sym c k resp _ _ Hv Hg Hk Hp.
    apply run_eq in Hg. unfold result at 1 3 5, after at 1.
    rewrite (stock_fresh_claim sch e id st y sym c k _ Hv Hg Hk Hd).
    set (st1 := logged ("attempting to create new bot: " ++ id)
                       (after (get_new_bot sch e y "stock") st)).
    assert (Hn : names st1 = names st) by apply get_new_bot_names.
    split; [|split].
    + intros Hs. now rewrite (brand_refused e "stock" (PStr sym) y c k false _ resp Hp Hs Hd).
    + intros v Hr.
      rewrite (change_bot_username_result e k y st st1) in Hr.
      rewrite (brand_started e "stock" (PStr sym) y c k false _ resp v Hp H Hr Hd).
      split; [reflexivity|]. simpl.
      now apply change_bot_username_names.
    + intros x Hr.
      rewrite (change_bot_username_result e k y st st1) in Hr.
      now rewrite (brand_rename_raises e "stock" (PStr sym) y c k false _ resp x Hp H Hr).
Qed.

Lemma start_request_decides_witness :
  result (crypto spec_schema Sample.rename_refused "Bitcoin") (Sample.world [Sample.free1])
  = Ret (PDict [("client_id", PStr "c1")])
  /\ names (after (crypto spec_schema Sample.rename_refused "Bitcoin")
                  (Sample.world [Sample.free1]))
     = names (after (change_bot_username Sample.rename_refused "t1" "bitcoin")
                    (Sample.world [Sample.free1])).
Proof.
  refine (proj1 (proj2 (proj1 (start_request_decides spec_schema Sample.rename_refused
                                 (Sample.world [Sample.free1])
                                 (fun m => ex_intro _ _ eq_refl))
                              "Bitcoin" "bitcoin" (PStr "btc") "c1" "t1"
                              (mkResponse 200 "" None)
                              _ _ _ _ _ _)
                       _)
                (PBool false) _); reflexivity.
Defined.

(** C4 as stated fails: the row is claimed, the ticker service starts the
    bot, the platform refuses the rename ([change_bot_username] returns
    [False] and the bot keeps its name), and the request reports success. On
    a platform that accepts the rename, the same request has renamed the
    bot. *)
Lemma failed_rename_reports_success :
  result (get_new_bot spec_schema Sample.rename_refused "bitcoin" "crypto")
         (Sample.world [Sample.free1])
  = Ret (Some ("c1", Some "t1"))
  /\ result (change_bot_username Sample.rename_refused "t1" "bitcoin")
            (Sample.world [Sample.free1])
     = Ret (PBool false)
  /\ result (crypto spec_schema Sample.rename_refused "Bitcoin")
            (Sample.world [Sample.free1])
     = Ret (PDict [("client_id", PStr "c1")])
  /\ names (after (crypto spec_schema Sample.rename_refused "Bitcoin")
                  (Sample.world [Sample.free1]))
     = []
  /\ names (after (crypto spec_schema Sample.online "Bitcoin")
                  (Sample.world [Sample.free1]))
     = [("t1", "BITCOIN")].
Proof. repeat split; reflexivity. Qed.

(** ** Registration *)

Lemma existsb_orb {X} (f g : X -> bool) (l : list X) :
  existsb (fun x => f x || g x)%bool l = (existsb f l || existsb g l)%bool.
Proof.
  induction l as [|x l IH]; simpl; [reflexivity|].
  rewrite IH. destruct (f x), (g x), (existsb f l), (existsb g l); reflexivity.
Qed.

(** The INSERT changes the table only when it counts a row. *)
Lemma insert_unclaimed_shape sch c k tbl tbl' n :
  Sql.insert_unclaimed sch c k tbl = Ret (tbl', n) ->
  (n = 0 /\ tbl' = tbl) \/ (n = 1 /\ tbl' = (tbl ++ [mkRow c k None None])%list).
Proof.
  unfold Sql.insert_unclaimed. destruct (_ || _)%bool.
  - destruct (on_conflict sch); [discriminate|].
    intros H; inversion H; auto.
  - intros H; inversion H; auto.
Qed.

(** A rename that returns a true value has been applied by the platform. *)
Lemma change_bot_username_applied e tok u st v :
  result (change_bot_username e tok u) st = Ret v ->
  truthy v = true ->
  after (change_bot_username e tok u) st
  = mkState (db st) ((tok, Str.upper u) :: names st) (sink st).
Proof.
  unfold result, after, change_bot_username, bind, patch, try_except,
    raise_for_status, resp_json, lift, ret, raise, platform_apply.
  destruct (http_patch e _ _ _) as [r|x]; simpl; [|discriminate].
  destruct (is_error_status r); simpl.
  - intros H; inversion H; subst. discriminate.
  - destruct (json r); reflexivity.
Qed.

(** C9, as amended. With the table declared as the specification describes
    the store (client id and token unique, a violation declines the insert),
    registering a credential whose client id or token is already in the pool
    leaves the table as it was, whatever the services answer. What the rename
    raises leaves [add_bot]. When the rename returns, [add_bot] passes one
    message to [log] (the insert was declined, or the rename was refused): it
    returns [False] when the webhook takes the message and raises what the
    webhook call raises otherwise. *)
Theorem duplicate_credential_declined sch e st cid tok :
  unique_client_id sch = true ->
  unique_token sch = true ->
  on_conflict sch = ConflictIgnore ->
  existsb (fun r => has_client_id cid r || has_token tok r)%bool (db st) = true ->
  db (after (add_bot sch e cid tok) st) = db st
  /\ (forall v,
         result (change_bot_username e tok "new ticker bot") st = Ret v ->
         result (add_bot sch e cid tok) st
         = after_log e (if truthy v then "Unable to add new bot to db"
                        else "unable to change the name for " ++ cid)
                     false)
  /\ (forall x,
         result (change_bot_username e tok "new ticker bot") st = Raise x ->
         result (add_bot sch e cid tok) st = Raise x).
Proof.
  intros Hc Ht Hi Hdup.
  pose proof (frame_change_bot_username e tok "new ticker bot" st) as Hf.
  set (st1 := snd (change_bot_username e tok "new ticker bot" st)) in *.
  assert (Hins : execute_insert sch cid tok st1 = (Ret 0, with_db (db st1) st1)).
  { unfold execute_insert, Sql.insert_unclaimed.
    rewrite <- Hf, Hc, Ht, Hi. rewrite existsb_orb in Hdup. simpl andb.
    now rewrite Hdup. }
  unfold result, after, add_bot, after_log.
  destruct (change_bot_username e tok "new ticker bot" st) as [[v|x] s] eqn:Hr;
    simpl in st1; subst st1.
  - destruct s as [tbl ns msgs].
    assert (Hrun : bind (change_bot_username e tok "new ticker bot")
                     (fun renamed =>
                        if negb (truthy renamed)
                        then bind (log e ("unable to change the name for " ++ cid))
                                  (fun _ => ret false)
                        else bind (execute_insert sch cid tok)
                                  (fun rowcount =>
                                     if rowcount =? 0
                                     then bind (log e "Unable to add new bot to db")
                                               (fun _ => ret false)
                                     else ret true)) st
                   = match webhook e (if truthy v then "Unable to add new bot to db"
                                      else "unable to change the name for " ++ cid) with
                     | Ret _ => (Ret false,
                                 logged (if truthy v then "Unable to add new bot to db"
                                         else "unable to change the name for " ++ cid)
                                        (mkState tbl ns msgs))
                     | Raise x => (Raise x, mkState tbl ns msgs)
                     end).
    { rewrite (bind_ret _ Hr). destruct (truthy v).
      - change (negb true) with false. cbv iota.
        rewrite (bind_ret _ Hins). change (0 =? 0) with true. cbv iota.
        rewrite log_then_ret.
        destruct (webhook e "Unable to add new bot to db"); reflexivity.
      - apply log_then_ret. }
    rewrite Hrun.
    split; [|split].
    + destruct (webhook e _); simpl; symmetry; exact Hf.
    + intros v' Hv'. inversion Hv'; subst v'.
      now destruct (webhook e _).
    + intros x Hx. discriminate.
  - rewrite (bind_raise _ Hr). simpl.
    split; [|split].
    + symmetry. exact Hf.
    + intros v Hv. discriminate.
    + intros x' Hx. now inversion Hx.
Qed.

Lemma duplicate_credential_declined_witness :
  db (after (add_bot spec_schema Sample.online "c1" "t9") (Sample.world [Sample.free1]))
  = [Sample.free1]
  /\ result (add_bot spec_schema Sample.online "c1" "t9") (Sample.world [Sample.free1])
     = Ret false.
Proof.
  split.
  - exact (proj1 (duplicate_credential_declined spec_schema Sample.online
                    (Sample.world [Sample.free1]) "c1" "t9"
                    eq_refl eq_refl eq_refl eq_refl)).
  - exact (proj1 (proj2 (duplicate_credential_declined spec_schema Sample.online
                           (Sample.world [Sample.free1]) "c1" "t9"
                           eq_refl eq_refl eq_refl eq_refl))
                 (PStr "NEW TICKER BOT") eq_refl).
Defined.

(** C9 as stated fails: with the admin webhook out of reach, registering a
    client id that is already in the pool raises [ConnectionError] instead of
    returning [False]; the table is as it was. *)
Lemma declined_insert_raises_without_webhook :
  result (add_bot spec_schema SampleMore.webhook_down "c1" "t9")
         (Sample.world [Sample.free1])
  = Raise ConnectionError
  /\ db (after (add_bot spec_schema SampleMore.webhook_down "c1" "t9")
               (Sample.world [Sample.free1]))
     = [Sample.free1]
  /\ existsb (fun r => has_client_id "c1" r || has_token "t9" r)%bool
             (db (Sample.world [Sample.free1]))
     = true.
Proof. repeat split; reflexivity. Qed.

Lemma log_keeps_names e m st : names (snd (log e m st)) = names st.
Proof. unfold log. destruct (webhook e m); reflexivity. Qed.

Lemma after_bind_const {A B} (m : M A) (b : B) st :
  snd (bind m (fun _ => ret b) st) = snd (m st).
Proof. unfold bind. destruct (m st) as [[a|x] s]; reflexivity. Qed.

Lemma execute_insert_cases sch c k st :
  (exists x, execute_insert sch c k st = (Raise x, st))
  \/ execute_insert sch c k st = (Ret 0, st)
  \/ execute_insert sch c k st
     = (Ret 1, with_db (db st ++ [mkRow c k None None])%list st).
Proof.
  unfold execute_insert.
  destruct (Sql.insert_unclaimed sch c k (db st)) as [[tbl n]|x] eqn:Hins; [|eauto].
  apply insert_unclaimed_shape in Hins as [[-> ->]|[-> ->]]; auto.
  right; left. destruct st; reflexivity.
Qed.

(** C10. [add_bot] renames before it inserts: whenever the rename has
    succeeded and the registration then fails (the insert is declined, or it
    raises), the display name of the bot is [NEW TICKER BOT] in the final
    state, and the table is as it was. *)
Theorem rename_survives_failed_insert sch e st cid tok v :
  result (change_bot_username e tok "new ticker bot") st = Ret v ->
  truthy v = true ->
  result (add_bot sch e cid tok) st <> Ret true ->
  name_of tok (names (after (add_bot sch e cid tok) st)) = Some "NEW TICKER BOT"
  /\ db (after (add_bot sch e cid tok) st) = db st.
Proof.
  intros Hr Hv Hfail.
  pose proof (change_bot_username_applied e tok "new ticker bot" st v Hr Hv) as Ha.
  apply run_eq in Hr. rewrite Ha in Hr. clear Ha.
  set (st1 := mkState (db st) ((tok, Str.upper "new ticker bot") :: names st) (sink st)) in *.
  assert (Hname : name_of tok (names st1) = Some "NEW TICKER BOT").
  { simpl. now rewrite String.eqb_refl. }
  unfold result, after in *. unfold add_bot in *.
  rewrite (bind_ret _ Hr) in Hfail |- *. rewrite Hv in Hfail |- *.
  change (negb true) with false in *. cbv iota in *.
  destruct (execute_insert_cases sch cid tok st1) as [[x Hx]|[H0|H1]].
  - rewrite (bind_raise _ Hx). auto.
  - rewrite (bind_ret _ H0). change (0 =? 0) with true. cbv iota.
    rewrite after_bind_const, log_keeps_names.
    split; [exact Hname|]. symmetry. exact (frame_log e _ st1).
  - rewrite (bind_ret _ H1) in Hfail. simpl in Hfail. congruence.
Qed.

Lemma rename_survives_failed_insert_witness :
  name_of "t9" (names (after (add_bot spec_schema Sample.online "c1" "t9")
                             (Sample.world [Sample.free1])))
  = Some "NEW TICKER BOT"
  /\ db (after (add_bot spec_schema Sample.online "c1" "t9") (Sample.world [Sample.free1]))
     = [Sample.free1].
Proof.
  refine (rename_survives_failed_insert spec_schema Sample.online
            (Sample.world [Sample.free1]) "c1" "t9" (PStr "NEW TICKER BOT")
            eq_refl eq_refl _).
  discriminate.
Defined.

(** ** The fallback of [stock] and of [crypto] *)

(** C5. The validator rejects the ticker and a binding exists under the
    lower-cased raw ticker: [crypto] answers with the client id of the bound
    row, [stock] answers with the pair of client id and token under
    [client_id]. *)
Theorem fallback_answers sch :
  result (crypto sch Sample.unknown_ticker "AAPL")
         (Sample.world [Sample.bound1 "aapl" "stock"])
  = Ret (PDict [("client_id", PStr "c1"); ("existing", PBool true)])
  /\ result (stock sch Sample.unknown_ticker "AAPL")
            (Sample.world [Sample.bound1 "aapl" "stock"])
     = Ret (PDict [("client_id", PTuple [PStr "c1"; PStr "t1"]);
                   ("existing", PBool true)]).
Proof. split; reflexivity. Qed.

(** ** Case of the ticker *)

(** C6. [check_existing_bot] compares the ticker as given, and [get_new_bot]
    looks the ticker up as given but writes it in lower case.  With [btc]
    bound to [c1], a request for [BTC] finds no binding; it then claims [c2]
    for [btc] when the table declares no constraint, is declined when tickers
    are unique and violations are ignored, and raises when they abort.  The
    same request in lower case returns [c1].  Through [crypto], a catalogue
    id in upper case makes two requests for one coin claim two rows. *)
Theorem lookup_is_case_sensitive e :
  result (check_existing_bot "btc") (Sample.world [Sample.bound1 "btc" "crypto"])
  = Ret (Some ("c1", "t1"))
  /\ result (check_existing_bot "BTC") (Sample.world [Sample.bound1 "btc" "crypto"])
     = Ret None
  /\ result (get_new_bot bare_schema e "btc" "crypto")
            (Sample.world [Sample.bound1 "btc" "crypto"; Sample.free2])
     = Ret (Some ("c1", None))
  /\ result (get_new_bot bare_schema e "BTC" "crypto")
            (Sample.world [Sample.bound1 "btc" "crypto"; Sample.free2])
     = Ret (Some ("c2", Some "t2"))
  /\ db (after (get_new_bot bare_schema e "BTC" "crypto")
               (Sample.world [Sample.bound1 "btc" "crypto"; Sample.free2]))
     = [Sample.bound1 "btc" "crypto"; mkRow "c2" "t2" (Some "btc") (Some "crypto")]
  /\ result (get_new_bot spec_schema Sample.online "BTC" "crypto")
            (Sample.world [Sample.bound1 "btc" "crypto"; Sample.free2])
     = Ret None
  /\ result (get_new_bot (mkSchema true true true ConflictAbort) e "BTC" "crypto")
            (Sample.world [Sample.bound1 "btc" "crypto"; Sample.free2])
     = Raise IntegrityError
  /\ result (crypto bare_schema Sample.upper_id "btc")
            (Sample.world [Sample.free1; Sample.free2])
     = Ret (PDict [("client_id", PStr "c1")])
  /\ result (crypto bare_schema Sample.upper_id "btc")
            (after (crypto bare_schema Sample.upper_id "btc")
                   (Sample.world [Sample.free1; Sample.free2]))
     = Ret (PDict [("client_id", PStr "c2")]).
Proof. repeat split; reflexivity. Qed.

(** ** The validators *)

(** C8. A status of the 4xx or 5xx range makes both validators return the
    empty result, and the request degrades to its validation error.  An
    exception of the transport, raised by [requests.get] outside the [try],
    leaves both validators and both entry points; so does the [KeyError] of a
    JSON document without the expected fields. *)
Theorem validator_failures sch :
  (result (crypto_validate Sample.unknown_ticker "doge") (Sample.world []) = Ret None
   /\ result (stock_validate Sample.unknown_ticker "doge") (Sample.world []) = Ret None
   /\ result (crypto sch Sample.unknown_ticker "doge") (Sample.world [])
      = Ret (PDict [("error", PStr "unable to validate coin id: doge")]))
  /\ (result (crypto_validate Sample.validators_down "doge") (Sample.world [])
      = Raise ConnectionError
      /\ result (stock_validate Sample.validators_down "doge") (Sample.world [])
         = Raise ConnectionError
      /\ result (crypto sch Sample.validators_down "doge") (Sample.world [])
         = Raise ConnectionError
      /\ result (stock sch Sample.validators_down "doge") (Sample.world [])
         = Raise ConnectionError)
  /\ (result (crypto_validate Sample.empty_document "doge") (Sample.world [])
      = Raise KeyError
      /\ result (stock_validate Sample.empty_document "doge") (Sample.world [])
         = Raise KeyError
      /\ result (crypto sch Sample.empty_document "doge") (Sample.world [])
         = Raise KeyError
      /\ result (stock sch Sample.empty_document "doge") (Sample.world [])
         = Raise KeyError).
Proof. repeat split; reflexivity. Qed.

(** ** Two callers and the last unclaimed row *)

(** Run alone, the statements of a caller are [get_new_bot]. *)
Lemma race_alone sch e t ty st :
  Race.steps 3 sch e t ty Race.AtCheck st
  = (Race.Done (result (get_new_bot sch e t ty) st), after (get_new_bot sch e t ty) st).
Proof.
  unfold result, after, get_new_bot, Race.steps, Race.step, Race.statement,
    bind, check_existing_bot, select_unclaimed, execute_claim, log, ret.
  destruct (Sql.select_by_ticker t (db st)) as [[c0 k0]|]; simpl; [reflexivity|].
  destruct (Sql.select_unclaimed (db st)) as [[c1 k1]|]; simpl.
  - destruct (Sql.update_binding sch (Str.lower t) ty c1 (db st)) as [[tbl n]|x];
      simpl; [|reflexivity].
    destruct (n =? 0); simpl; [|reflexivity].
    destruct (webhook e _); reflexivity.
  - destruct (webhook e _); reflexivity.
Qed.

(** C1. Two callers ask for [btc] and for [eth] when one unclaimed row is
    left, and their statements alternate: both SELECTs return the row, both
    UPDATEs match it by client id and count one row.  Both callers get the
    row [c1]; it ends bound to [eth], the binding to [btc] is overwritten. *)
Theorem last_row_claimed_twice sch e :
  Race.run sch e [0; 1; 0; 1; 0; 1]%nat
           [Race.start "btc" "crypto"; Race.start "eth" "crypto"]
           (Sample.world [Sample.free1])
  = ([Race.mkCaller "btc" "crypto" (Race.Done (Ret (Some ("c1", Some "t1"))));
      Race.mkCaller "eth" "crypto" (Race.Done (Ret (Some ("c1", Some "t1"))))],
     Sample.world [Sample.bound1 "eth" "crypto"]).
Proof. destruct sch as [a b [] d]; reflexivity. Qed.

(** * Further properties of util.py *)

(** ** The avatar *)

(** X1. [change_bot_photo] returns [True] exactly when the platform answers
    without an error status with a JSON object whose [avatar] is a true
    value. *)
Theorem photo_accepted_iff e tok photo st :
  result (change_bot_photo e tok photo) st = Ret true
  <-> exists resp d a,
      http_patch e DISCORD_ME tok (PDict [("avatar", PStr photo)]) = Ret resp
      /\ is_error_status resp = false
      /\ json resp = Some (PDict d)
      /\ assoc "avatar" d = Some a
      /\ truthy a = true.
Proof.
  unfold result, change_bot_photo, bind, patch, try_except, raise_for_status,
    resp_json, lift, ret, raise, py_get_default.
  split.
  - destruct (http_patch e _ _ _) as [resp|x]; simpl; [|discriminate].
    destruct (is_error_status resp) eqn:Hs; simpl; [discriminate|].
    destruct (json resp) as [body|] eqn:Hj; simpl; [|discriminate].
    destruct body as [| | | | | |d]; simpl; try discriminate.
    destruct (assoc "avatar" d) as [a|] eqn:Ha; simpl; [|discriminate].
    destruct (truthy a) eqn:Ht; simpl; [|discriminate].
    intros _. exists resp, d, a. auto.
  - intros (resp & d & a & -> & Hs & Hj & Ha & Ht). simpl.
    rewrite Hs. simpl. rewrite Hj. simpl. rewrite Ha, Ht. reflexivity.
Qed.

(** X2. An answer of the platform with a 4xx or 5xx status makes
    [change_bot_username] and [change_bot_photo] return [False]: neither
    raises, and the state, display names included, is as before. *)
Theorem platform_refusal_is_false e tok st :
  (forall u r,
      http_patch e DISCORD_ME tok (PDict [("username", PStr (Str.upper u))]) = Ret r ->
      is_error_status r = true ->
      change_bot_username e tok u st = (Ret (PBool false), st))
  /\ (forall photo r,
         http_patch e DISCORD_ME tok (PDict [("avatar", PStr photo)]) = Ret r ->
         is_error_status r = true ->
         change_bot_photo e tok photo st = (Ret false, st)).
Proof.
  split.
  - intros u r H E.
    unfold change_bot_username, bind, patch, try_except, raise_for_status, platform_apply.
    rewrite H, E. reflexivity.
  - intros photo r H E.
    unfold change_bot_photo, bind, patch, try_except, raise_for_status, platform_apply.
    rewrite H, E. reflexivity.
Qed.

Lemma platform_refusal_is_false_witness :
  change_bot_username Sample.rename_refused "t1" "bitcoin" (Sample.world [Sample.free1])
  = (Ret (PBool false), Sample.world [Sample.free1])
  /\ change_bot_photo Sample.rename_refused "t1" "data:image/png;base64,TWFu"
                      (Sample.world [Sample.free1])
     = (Ret false, Sample.world [Sample.free1]).
Proof.
  destruct (platform_refusal_is_false Sample.rename_refused "t1"
              (Sample.world [Sample.free1])) as [H1 H2].
  split.
  - exact (H1 "bitcoin" (mkResponse 401 "" None) eq_refl eq_refl).
  - exact (H2 "data:image/png;base64,TWFu" (mkResponse 401 "" None) eq_refl eq_refl).
Defined.

Lemma pure_patch_avatar e tok photo :
  pure (patch e DISCORD_ME tok (PDict [("avatar", PStr photo)])).
Proof.
  intros st. unfold patch. destruct (http_patch e _ _ _) as [r|x]; [|reflexivity].
  simpl. unfold platform_apply. destruct (is_error_status r); reflexivity.
Qed.

Lemma pure_change_bot_photo e tok photo : pure (change_bot_photo e tok photo).
Proof.
  unfold change_bot_photo. pose proof (pure_patch_avatar e tok photo). pure_tac.
Qed.

(** X3. Setting an avatar, directly or for the bot of a ticker, leaves the
    pool, the display names and the webhook untouched, whatever it returns or
    raises. *)
Theorem photo_calls_change_nothing e tok photo tick url st :
  after (change_bot_photo e tok photo) st = st
  /\ after (change_ticker_photo e tick url) st = st.
Proof.
  split.
  - apply pure_change_bot_photo.
  - unfold change_ticker_photo. revert st.
    change (pure (bind (check_existing_bot tick)
                       (fun client_id =>
                          match client_id with
                          | Some (_, k) =>
                              bind (get e url)
                                   (fun resp => change_bot_photo e k (photo_encoded url (text resp)))
                          | None => ret false
                          end))).
    pose proof pure_change_bot_photo. pure_tac.
Qed.

(** X4. For a ticker without a bound bot, compared as given,
    [change_ticker_photo] returns [False] before any download: the answer is
    the same whatever the services would do. *)
Theorem no_bot_no_photo e tick url st :
  filter (has_ticker tick) (db st) = [] ->
  change_ticker_photo e tick url st = (Ret false, st).
Proof.
  intros H. unfold change_ticker_photo, bind, check_existing_bot.
  now rewrite (select_by_ticker_none _ _ H).
Qed.

Lemma no_bot_no_photo_witness :
  change_ticker_photo Sample.validators_down "BTC" "http://x/p.png"
                      (Sample.world [Sample.bound1 "btc" "crypto"])
  = (Ret false, Sample.world [Sample.bound1 "btc" "crypto"]).
Proof.
  exact (no_bot_no_photo Sample.validators_down "BTC" "http://x/p.png"
           (Sample.world [Sample.bound1 "btc" "crypto"]) eq_refl).
Defined.

(** ** The data URI of a photo *)

Lemma split_nonempty sep s : split sep s <> [].
Proof.
  destruct s as [|c r]; simpl; [discriminate|].
  destruct (Ascii.eqb c sep); [discriminate|].
  destruct (split sep r); discriminate.
Qed.

(** Joining the pieces of a split gives the string back. *)
Lemma join_split sep s : join (String sep EmptyString) (split sep s) = s.
Proof.
  induction s as [|c r IH]; simpl; [reflexivity|].
  destruct (Ascii.eqb c sep) eqn:Hc.
  - apply Ascii.eqb_eq in Hc. subst c.
    destruct (split sep r) as [|p ps] eqn:Hs; [now apply split_nonempty in Hs|].
    simpl in *. now rewrite IH.
  - destruct (split sep r) as [|p ps] eqn:Hs; [now apply split_nonempty in Hs|].
    simpl in *. destruct ps; simpl in *; now rewrite <- IH.
Qed.

Lemma split_pieces_clean sep s :
  Forall (fun p => all_chars (fun c => negb (Ascii.eqb c sep)) p = true) (split sep s).
Proof.
  induction s as [|c r IH]; simpl.
  - repeat constructor.
  - destruct (Ascii.eqb c sep) eqn:Hc.
    + constructor; [reflexivity|exact IH].
    + destruct (split sep r) as [|p ps]; [repeat constructor; simpl; now rewrite Hc|].
      inversion IH; subst. constructor; [simpl; now rewrite Hc|assumption].
Qed.

Lemma append_assoc (a b c : string) : (a ++ b) ++ c = a ++ (b ++ c).
Proof. induction a as [|x a IH]; simpl; [reflexivity|now rewrite IH]. Qed.

Lemma join_ends_with_last sep l :
  l <> [] ->
  join sep l = last l EmptyString
  \/ exists pre, join sep l = pre ++ sep ++ last l EmptyString.
Proof.
  induction l as [|p ps IH]; [congruence|]. intros _.
  destruct ps as [|q qs]; [now left|].
  right. destruct IH as [H|[pre H]]; [discriminate| |].
  - exists p. change (join sep (p :: q :: qs)) with (p ++ sep ++ join sep (q :: qs)).
    now rewrite H.
  - exists (p ++ sep ++ pre).
    change (join sep (p :: q :: qs)) with (p ++ sep ++ join sep (q :: qs)).
    rewrite H. change (last (p :: q :: qs) "") with (last (q :: qs) "").
    now rewrite !append_assoc.
Qed.

(** X5. The image type that [change_ticker_photo] writes into the data URI
    is what follows the last dot of the URL: it holds no dot, and the URL is
    either that text alone (a URL without dot is taken whole) or a prefix, a
    dot and that text. *)
Theorem extension_is_after_last_dot url :
  all_chars (fun c => negb (Ascii.eqb c ".")) (extension url) = true
  /\ (url = extension url \/ exists pre, url = pre ++ "." ++ extension url).
Proof.
  unfold extension. split.
  - pose proof (split_pieces_clean "." url) as HF.
    pose proof (split_nonempty "." url) as Hne.
    rewrite Forall_forall in HF. apply HF.
    destruct (split "." url) as [|p ps]; [congruence|].
    apply (@exists_last _ (p :: ps)) in Hne as (l' & a & Hl). rewrite Hl.
    rewrite last_last. apply in_or_app. right. now left.
  - pose proof (join_ends_with_last "." (split "." url) (split_nonempty "." url)) as H.
    rewrite join_split in H. exact H.
Qed.

Lemma string_ind3 (P : string -> Prop) :
  P EmptyString ->
  (forall a, P (String a EmptyString)) ->
  (forall a b, P (String a (String b EmptyString))) ->
  (forall a b c r, P r -> P (String a (String b (String c r)))) ->
  forall s, P s.
Proof.
  intros H0 H1 H2 H3.
  assert (H : forall s, P s /\ (forall a, P (String a s))
                        /\ (forall a b, P (String a (String b s)))).
  { induction s as [|c r (Hr & Hr1 & Hr2)]; [auto|].
    repeat split; auto. }
  intros s. apply H.
Qed.

Lemma digit_is_b64 n : (n < 64)%nat -> is_b64_char (Base64.digit n) = true.
Proof.
  intros Hn.
  assert (H : forallb (fun n => is_b64_char (Base64.digit n)) (seq 0 64) = true)
    by (vm_compute; reflexivity).
  rewrite forallb_forall in H. apply H. apply in_seq. lia.
Qed.

Lemma b64encode_chars s : all_chars is_b64_char (Base64.b64encode s) = true.
Proof.
  induction s as [|a|a b|a b c r IH] using string_ind3.
  - reflexivity.
  - pose proof (nat_ascii_bounded a).
    cbn [Base64.b64encode Base64.quad all_chars].
    rewrite !digit_is_b64; [reflexivity| |].
    + assert (nat_of_ascii a mod 4 < 4)%nat by (apply Nat.mod_upper_bound; lia). lia.
    + apply Nat.Div0.div_lt_upper_bound. lia.
  - pose proof (nat_ascii_bounded a). pose proof (nat_ascii_bounded b).
    cbn [Base64.b64encode Base64.quad all_chars].
    assert (nat_of_ascii a mod 4 < 4)%nat by (apply Nat.mod_upper_bound; lia).
    assert (nat_of_ascii b mod 16 < 16)%nat by (apply Nat.mod_upper_bound; lia).
    assert (nat_of_ascii b / 16 < 16)%nat by (apply Nat.Div0.div_lt_upper_bound; lia).
    assert (nat_of_ascii a / 4 < 64)%nat by (apply Nat.Div0.div_lt_upper_bound; lia).
    rewrite !digit_is_b64; [reflexivity|lia|lia|lia].
  - pose proof (nat_ascii_bounded a). pose proof (nat_ascii_bounded b).
    pose proof (nat_ascii_bounded c).
    cbn [Base64.b64encode Base64.quad all_chars].
    assert (nat_of_ascii a mod 4 < 4)%nat by (apply Nat.mod_upper_bound; lia).
    assert (nat_of_ascii b mod 16 < 16)%nat by (apply Nat.mod_upper_bound; lia).
    assert (nat_of_ascii c mod 64 < 64)%nat by (apply Nat.mod_upper_bound; lia).
    assert (nat_of_ascii b / 16 < 16)%nat by (apply Nat.Div0.div_lt_upper_bound; lia).
    assert (nat_of_ascii c / 64 < 4)%nat by (apply Nat.Div0.div_lt_upper_bound; lia).
    assert (nat_of_ascii a / 4 < 64)%nat by (apply Nat.Div0.div_lt_upper_bound; lia).
    rewrite !digit_is_b64; [rewrite IH; reflexivity|lia|lia|lia|lia].
Qed.

Lemma b64encode_length s :
  String.length (Base64.b64encode s) = (4 * ((String.length s + 2) / 3))%nat.
Proof.
  induction s as [|a|a b|a b c r IH] using string_ind3; try reflexivity.
  cbn [Base64.b64encode Base64.quad String.length]. rewrite IH.
  replace (S (S (S (String.length r))) + 2)%nat with (1 * 3 + (String.length r + 2))%nat by lia.
  rewrite Nat.div_add_l by lia. lia.
Qed.

Lemma b64_char_is_ascii c : is_b64_char c = true -> is_ascii c = true.
Proof.
  destruct c as [[] [] [] [] [] [] [] []]; vm_compute; congruence.
Qed.

Lemma all_chars_impl (f g : ascii -> bool) s :
  (forall c, f c = true -> g c = true) ->
  all_chars f s = true -> all_chars g s = true.
Proof.
  intros Hfg. induction s as [|c r IH]; simpl; [auto|].
  intros H. apply andb_prop in H as [Hc Hr]. now rewrite (Hfg c Hc), IH.
Qed.

(** X6. The payload of the data URI has four characters for every started
    group of three bytes of the download; all of them are characters of the
    base64 alphabet or [=], hence ASCII, so that its [decode('ascii')] cannot
    fail. *)
Theorem photo_payload_shape content :
  String.length (Base64.b64encode content) = (4 * ((String.length content + 2) / 3))%nat
  /\ all_chars is_b64_char (Base64.b64encode content) = true
  /\ all_chars is_ascii (Base64.b64encode content) = true.
Proof.
  split; [apply b64encode_length|]. split; [apply b64encode_chars|].
  apply (all_chars_impl is_b64_char); [exact b64_char_is_ascii|apply b64encode_chars].
Qed.

(** ** Registration *)

(** X7. A credential whose token the platform does not accept is not
    inserted: when the rename returns a false value, [add_bot] and
    [add_private_bot] (for an ASCII ticker) execute no INSERT, the public and
    the private table are as before, and one message is passed to [log]; they
    return [False] when the webhook takes the message and raise what the
    webhook call raises otherwise. *)
Theorem refused_token_is_not_registered sch e st cid tok :
  (forall v,
      result (change_bot_username e tok "new ticker bot") st = Ret v ->
      truthy v = false ->
      result (add_bot sch e cid tok) st
      = after_log e ("unable to change the name for " ++ cid) false
      /\ db (after (add_bot sch e cid tok) st) = db st)
  /\ (forall is_public dbname private tick typ v,
         ascii_only tick ->
         result (change_bot_username e tok tick) st = Ret v ->
         truthy v = false ->
         result (add_private_bot sch e is_public dbname private cid tok tick typ) st
         = after_log e ("unable to change the name for " ++ cid) (false, private)
         /\ db (after (add_private_bot sch e is_public dbname private cid tok tick typ) st)
            = db st).
Proof.
  split.
  - intros v Hv Hvf.
    pose proof (frame_change_bot_username e tok "new ticker bot" st) as Hf.
    apply run_eq in Hv. unfold result, after, after_log in *. unfold add_bot.
    rewrite (bind_ret _ Hv), Hvf. change (negb false) with true. cbv iota.
    rewrite log_then_ret.
    destruct (webhook e _); simpl; auto.
  - intros is_public dbname private tick typ w _ Hw Hwf.
    pose proof (frame_change_bot_username e tok tick st) as Hf.
    apply run_eq in Hw. unfold result, after, after_log in *. unfold add_private_bot.
    rewrite (bind_ret _ Hw), Hwf. change (negb false) with true. cbv iota.
    rewrite log_then_ret.
    destruct (webhook e _); simpl; auto.
Qed.

Lemma refused_token_is_not_registered_witness :
  result (add_private_bot bare_schema Sample.rename_refused SampleMore.is_public
                          "guild" [] "c9" "t9" "btc" "crypto")
         (Sample.world [Sample.free1])
  = Ret (false, [])
  /\ db (after (add_private_bot bare_schema Sample.rename_refused SampleMore.is_public
                                "guild" [] "c9" "t9" "btc" "crypto")
               (Sample.world [Sample.free1]))
     = [Sample.free1].
Proof.
  exact (proj2 (refused_token_is_not_registered bare_schema Sample.rename_refused
                  (Sample.world [Sample.free1]) "c9" "t9")
               SampleMore.is_public "guild" [] "btc" "crypto" (PBool false)
               eq_refl eq_refl eq_refl).
Defined.

Lemma insert_bound_shape sch c k t ty tbl tbl' n :
  insert_bound sch c k t ty tbl = Ret (tbl', n) ->
  (n = 0 /\ tbl' = tbl) \/ (n = 1 /\ tbl' = (tbl ++ [mkRow c k (Some t) (Some ty)])%list).
Proof.
  unfold insert_bound. destruct (_ || _)%bool.
  - destruct (on_conflict sch); [discriminate|].
    intros H; inversion H; auto.
  - intros H; inversion H; auto.
Qed.

Lemma select_by_ticker_app_new t tbl c k ty :
  filter (has_ticker t) tbl = [] ->
  Sql.select_by_ticker t (tbl ++ [mkRow c k (Some t) (Some ty)]) = Some (c, k).
Proof.
  intros H. unfold Sql.select_by_ticker.
  induction tbl as [|r tbl IH]; simpl in *.
  - unfold has_ticker. simpl. now rewrite String.eqb_refl.
  - destruct (has_ticker t r); [discriminate|]. now apply IH.
Qed.

(** X8. When [add_private_bot], called with an ASCII ticker, returns [True],
    the bot is named by the upper-cased ticker and one table has one more
    row, already bound: the credential with the ticker exactly as it was
    given (it is not lower-cased) and the type. When [db + '.db'] does not
    open the file of the public pool, the row is in the private table, a
    lookup of the ticker there finds the credential when no earlier row had
    the ticker, and the public table is as before. When [db + '.db'] opens the
    file of the public pool, the row is in the public table. *)
Theorem private_bot_is_inserted_bound sch e st is_public dbname private cid tok tick typ tbl' :
  ascii_only tick ->
  result (add_private_bot sch e is_public dbname private cid tok tick typ) st
  = Ret (true, tbl') ->
  name_of tok (names (after (add_private_bot sch e is_public dbname private cid tok tick typ) st))
  = Some (Str.upper tick)
  /\ (is_public (dbname ++ ".db") = false ->
      tbl' = (private ++ [mkRow cid tok (Some tick) (Some typ)])%list
      /\ db (after (add_private_bot sch e is_public dbname private cid tok tick typ) st)
         = db st
      /\ (filter (has_ticker tick) private = [] ->
          Sql.select_by_ticker tick tbl' = Some (cid, tok)))
  /\ (is_public (dbname ++ ".db") = true ->
      tbl' = private
      /\ db (after (add_private_bot sch e is_public dbname private cid tok tick typ) st)
         = (db st ++ [mkRow cid tok (Some tick) (Some typ)])%list).
Proof.
  unfold result, after, add_private_bot. intros _ H.
  destruct (change_bot_username e tok tick st) as [[v|x] st1] eqn:Hc;
    [|rewrite (bind_raise _ Hc) in H; discriminate].
  rewrite (bind_ret _ Hc) in H |- *.
  destruct (truthy v) eqn:Hv.
  2:{ change (negb false) with true in H. cbv iota in H.
      unfold bind, log, ret in H. destruct (webhook e _); simpl in H; congruence. }
  change (negb true) with false in H |- *. cbv iota in H |- *.
  assert (Hst1 : st1 = mkState (db st) ((tok, Str.upper tick) :: names st) (sink st)).
  { pose proof (change_bot_username_applied e tok tick st v) as Ha.
    unfold result, after in Ha. rewrite Hc in Ha. exact (Ha eq_refl Hv). }
  destruct (is_public (dbname ++ ".db")).
  - unfold bind, execute_insert_bound in H |- *.
    destruct (insert_bound sch cid tok tick typ (db st1)) as [[tbl n]|x] eqn:Hi;
      [|discriminate].
    apply insert_bound_shape in Hi as [[-> ->]|[-> ->]].
    + simpl in H. unfold log, ret in H. destruct (webhook e _); simpl in H; congruence.
    + simpl in H |- *. inversion H; subst tbl'. subst st1. simpl.
      rewrite String.eqb_refl.
      split; [reflexivity|]. split; [discriminate|]. auto.
  - unfold bind, lift in H |- *.
    destruct (insert_bound sch cid tok tick typ private) as [[tbl n]|x] eqn:Hi;
      [|discriminate].
    apply insert_bound_shape in Hi as [[-> ->]|[-> ->]].
    + simpl in H. unfold log, ret in H. destruct (webhook e _); simpl in H; congruence.
    + simpl in H |- *. inversion H; subst tbl'. subst st1. simpl.
      rewrite String.eqb_refl.
      split; [reflexivity|]. split; [|discriminate].
      intros _. split; [reflexivity|]. split; [reflexivity|].
      intros Hn. now apply select_by_ticker_app_new.
Qed.

Lemma private_bot_is_inserted_bound_witness :
  name_of "t9" (names (after (add_private_bot bare_schema Sample.online SampleMore.is_public
                                              "guild" [] "c9" "t9" "BTC" "crypto")
                             (Sample.world [Sample.free1])))
  = Some "BTC"
  /\ db (after (add_private_bot bare_schema Sample.online SampleMore.is_public
                                "guild" [] "c9" "t9" "BTC" "crypto")
               (Sample.world [Sample.free1]))
     = [Sample.free1]
  /\ db (after (add_private_bot bare_schema Sample.online SampleMore.is_public
                                "newbots" [] "c9" "t9" "BTC" "crypto")
               (Sample.world [Sample.free1]))
     = [Sample.free1; mkRow "c9" "t9" (Some "BTC") (Some "crypto")].
Proof.
  destruct (private_bot_is_inserted_bound bare_schema Sample.online
              (Sample.world [Sample.free1]) SampleMore.is_public "guild" [] "c9" "t9"
              "BTC" "crypto"
              [mkRow "c9" "t9" (Some "BTC") (Some "crypto")] eq_refl eq_refl)
    as (H1 & H2 & _).
  destruct (private_bot_is_inserted_bound bare_schema Sample.online
              (Sample.world [Sample.free1]) SampleMore.is_public "newbots" [] "c9" "t9"
              "BTC" "crypto" [] eq_refl eq_refl)
    as (_ & _ & H3).
  split; [exact H1|]. split; [exact (proj1 (proj2 (H2 eq_refl)))|exact (proj2 (H3 eq_refl))].
Defined.

(** ** Bad responses of the catalogue and of the quote service *)

Lemma decode_bad_response resp :
  is_error_status resp = true \/ json resp = None ->
  forall st,
    try_except (raise_for_status resp ;; (data <- resp_json resp ;; ret (Some data)))
               (ret None) st
    = (Ret None, st).
Proof.
  intros H st. unfold try_except, bind, raise_for_status, resp_json, raise, ret.
  destruct (is_error_status resp); [reflexivity|].
  destruct H as [H|H]; [discriminate|]. now rewrite H.
Qed.

(** X9. A response with a 4xx or 5xx status, or with a body that is not
    JSON, makes [crypto_validate] and [stock_validate] return their empty
    result and [crypto_search] the empty tuple; none of them raises, none
    changes the state. *)
Theorem bad_response_is_empty e st :
  (forall key r,
      http_get e (COINGECKO_URL ++ "coins/list") = Ret r ->
      is_error_status r = true \/ json r = None ->
      crypto_search e key st = (Ret (PTuple []), st))
  /\ (forall id r,
         http_get e (COINGECKO_URL ++ "coins/" ++ id) = Ret r ->
         is_error_status r = true \/ json r = None ->
         crypto_validate e id st = (Ret None, st))
  /\ (forall id r,
         http_get e (YAHOO_URL ++ "quoteSummary/" ++ id ++ "?modules=price") = Ret r ->
         is_error_status r = true \/ json r = None ->
         stock_validate e id st = (Ret None, st)).
Proof.
  split; [|split].
  - intros key r H B. unfold crypto_search, get, lift. unfold bind at 1. rewrite H.
    unfold bind at 1. now rewrite (decode_bad_response r B).
  - intros id r H B. unfold crypto_validate, get, lift. unfold bind at 1. rewrite H.
    unfold bind at 1. now rewrite (decode_bad_response r B).
  - intros id r H B. unfold stock_validate, get, lift. unfold bind at 1. rewrite H.
    unfold bind at 1. now rewrite (decode_bad_response r B).
Qed.

Lemma bad_response_is_empty_witness :
  crypto_search Sample.unknown_ticker "bit" (Sample.world []) = (Ret (PTuple []), Sample.world [])
  /\ crypto_validate Sample.unknown_ticker "doge" (Sample.world []) = (Ret None, Sample.world [])
  /\ stock_validate Sample.unknown_ticker "doge" (Sample.world []) = (Ret None, Sample.world []).
Proof.
  destruct (bad_response_is_empty Sample.unknown_ticker (Sample.world [])) as (H1 & H2 & H3).
  split; [|split].
  - exact (H1 "bit" (mkResponse 404 "" None) eq_refl (or_introl eq_refl)).
  - exact (H2 "doge" (mkResponse 404 "" None) eq_refl (or_introl eq_refl)).
  - exact (H3 "doge" (mkResponse 404 "" None) eq_refl (or_introl eq_refl)).
Defined.

(** ** Searching the catalogue *)

Lemma search_hit_coin key x c :
  is_coin x c -> search_hit key x = Ret (coin_matches key c).
Proof.
  intros (Hi & Hs & Hn). unfold search_hit, field_has, coin_matches.
  rewrite Hi, Hs, Hn. simpl.
  destruct (Str.contains key (coin_id c)); [reflexivity|].
  destruct (Str.contains key (coin_symbol c)); reflexivity.
Qed.

Lemma search_ids_coins key items coins :
  Forall2 is_coin items coins ->
  search_ids key items
  = Ret (map (fun c => PStr (coin_id c)) (filter (coin_matches key) coins)).
Proof.
  induction 1 as [|x c items coins Hc _ IH]; simpl; [reflexivity|].
  rewrite (search_hit_coin key x c Hc), IH.
  destruct (coin_matches key c); [|reflexivity].
  destruct Hc as (-> & _). reflexivity.
Qed.

Lemma crypto_search_listing e key st resp items :
  http_get e (COINGECKO_URL ++ "coins/list") = Ret resp ->
  is_error_status resp = false ->
  json resp = Some (PList items) ->
  crypto_search e key st = bind (lift (search_ids key items)) (fun ids => ret (PList ids)) st.
Proof.
  intros Hg Hs Hj.
  unfold crypto_search, get, lift. unfold bind at 1. rewrite Hg.
  unfold bind at 1. unfold try_except, bind at 1, raise_for_status. rewrite Hs.
  unfold ret at 1. unfold bind at 1, resp_json. rewrite Hj. reflexivity.
Qed.

(** X10. On a catalogue whose entries all carry an [id], a [symbol] and a
    [name] that are strings, [crypto_search] returns, in catalogue order,
    the ids of exactly the entries in which the key occurs in the id, the
    symbol or the name. *)
Theorem search_returns_the_matches e key st resp items coins :
  http_get e (COINGECKO_URL ++ "coins/list") = Ret resp ->
  is_error_status resp = false ->
  json resp = Some (PList items) ->
  Forall2 is_coin items coins ->
  crypto_search e key st
  = (Ret (PList (map (fun c => PStr (coin_id c)) (filter (coin_matches key) coins))), st).
Proof.
  intros Hg Hs Hj HF.
  rewrite (crypto_search_listing e key st resp items Hg Hs Hj).
  now rewrite (search_ids_coins key items coins HF).
Qed.

Lemma sample_catalogue_coins :
  Forall2 is_coin
          [PDict [("id", PStr "bitcoin"); ("symbol", PStr "btc"); ("name", PStr "Bitcoin")];
           PDict [("id", PStr "ethereum"); ("symbol", PStr "eth"); ("name", PStr "Ethereum")];
           PDict [("id", PStr "wrapped-bitcoin"); ("symbol", PStr "wbtc");
                  ("name", PStr "Wrapped Bitcoin")]]
          SampleMore.coins.
Proof. repeat constructor. Defined.

Lemma search_returns_the_matches_witness :
  crypto_search SampleMore.listing "bitcoin" (Sample.world [])
  = (Ret (PList [PStr "bitcoin"; PStr "wrapped-bitcoin"]), Sample.world []).
Proof.
  exact (search_returns_the_matches SampleMore.listing "bitcoin" (Sample.world [])
           (mkResponse 200 "" (Some SampleMore.catalogue)) _ SampleMore.coins
           eq_refl eq_refl eq_refl sample_catalogue_coins).
Defined.

Lemma contains_empty s : Str.contains "" s = true.
Proof. destruct s; reflexivity. Qed.

Lemma filter_all {X} (f : X -> bool) (l : list X) :
  (forall x, f x = true) -> filter f l = l.
Proof.
  intros H. induction l as [|x l IH]; simpl; [reflexivity|]. now rewrite H, IH.
Qed.

(** X11. The empty key matches every entry: on such a catalogue
    [crypto_search("")] returns the ids of all entries. *)
Theorem search_with_empty_key_lists_all e st resp items coins :
  http_get e (COINGECKO_URL ++ "coins/list") = Ret resp ->
  is_error_status resp = false ->
  json resp = Some (PList items) ->
  Forall2 is_coin items coins ->
  crypto_search e "" st = (Ret (PList (map (fun c => PStr (coin_id c)) coins)), st).
Proof.
  intros Hg Hs Hj HF.
  rewrite (crypto_search_listing e "" st resp items Hg Hs Hj).
  rewrite (search_ids_coins "" items coins HF).
  rewrite filter_all; [reflexivity|].
  intros c. unfold coin_matches. now rewrite contains_empty.
Qed.

Lemma search_with_empty_key_lists_all_witness :
  crypto_search SampleMore.listing "" (Sample.world [])
  = (Ret (PList [PStr "bitcoin"; PStr "ethereum"; PStr "wrapped-bitcoin"]), Sample.world []).
Proof.
  exact (search_with_empty_key_lists_all SampleMore.listing (Sample.world [])
           (mkResponse 200 "" (Some SampleMore.catalogue)) _ SampleMore.coins
           eq_refl eq_refl eq_refl sample_catalogue_coins).
Defined.

(** X12. A catalogue entry without [id] makes [crypto_search] raise
    [KeyError] whatever the key, even when other entries match: the
    comprehension is outside the [try]. *)
Theorem search_raises_on_entry_without_id e key st resp before x after_ :
  http_get e (COINGECKO_URL ++ "coins/list") = Ret resp ->
  is_error_status resp = false ->
  json resp = Some (PList (before ++ x :: after_)%list) ->
  (exists coins, Forall2 is_coin before coins) ->
  (exists d, x = PDict d /\ assoc "id" d = None) ->
  crypto_search e key st = (Raise KeyError, st).
Proof.
  intros Hg Hs Hj [coins HF] (d & -> & Hd).
  rewrite (crypto_search_listing e key st resp _ Hg Hs Hj).
  assert (H : search_ids key (before ++ PDict d :: after_) = Raise KeyError).
  { clear Hj. induction HF as [|y c items coins Hc _ IH]; simpl.
    - unfold search_hit, field_has. simpl. now rewrite Hd.
    - rewrite (search_hit_coin key y c Hc), IH.
      destruct (coin_matches key c); [|reflexivity].
      destruct Hc as (-> & _). reflexivity. }
  unfold bind, lift. now rewrite H.
Qed.

Lemma search_raises_on_entry_without_id_witness :
  crypto_search SampleMore.broken_listing "bit" (Sample.world [])
  = (Raise KeyError, Sample.world []).
Proof.
  refine (search_raises_on_entry_without_id SampleMore.broken_listing "bit" (Sample.world [])
            (mkResponse 200 ""
               (Some (PList [SampleMore.btc_entry; PDict [("symbol", PStr "x")]])))
            [SampleMore.btc_entry] (PDict [("symbol", PStr "x")]) [] eq_refl eq_refl eq_refl
            (ex_intro _ [mkCoin "bitcoin" "btc" "Bitcoin"] _)
            (ex_intro _ [("symbol", PStr "x")] (conj eq_refl eq_refl))).
  repeat constructor.
Defined.

(** ** The exact effect of a claim *)

Lemma find_split {X} (f : X -> bool) (l : list X) (x : X) :
  find f l = Some x ->
  exists pre post, l = (pre ++ x :: post)%list
                   /\ Forall (fun y => f y = false) pre /\ f x = true.
Proof.
  induction l as [|y l IH]; simpl; [discriminate|].
  destruct (f y) eqn:Hy.
  - intros H; inversion H; subst. exists [], l. auto.
  - intros H. destruct (IH H) as (pre & post & -> & Hpre & Hx).
    exists (y :: pre), post. auto.
Qed.

Lemma update_from_untouched sch t ty c l :
  Forall (fun r => has_client_id c r = false) l ->
  forall before rest,
    Sql.update_from sch t ty c before (l ++ rest)
    = Sql.update_from sch t ty c (before ++ l) rest.
Proof.
  induction 1 as [|r l Hr _ IH]; intros before rest; simpl.
  - now rewrite app_nil_r.
  - rewrite Hr, IH. now rewrite <- app_assoc.
Qed.

Lemma unique_ids_others tbl pre r post :
  unique_ids tbl -> tbl = (pre ++ r :: post)%list ->
  Forall (fun x => has_client_id (client_id r) x = false) pre
  /\ Forall (fun x => has_client_id (client_id r) x = false) post.
Proof.
  unfold unique_ids. intros Hu ->. rewrite map_app in Hu. simpl in Hu.
  apply NoDup_remove_2 in Hu.
  split; apply Forall_forall; intros x Hx; unfold has_client_id;
    apply String.eqb_neq; intros Heq; apply Hu; apply in_or_app;
    [left|right]; rewrite <- Heq; now apply in_map.
Qed.

(** On a table with unique client ids the UPDATE of a claim changes the one
    row of that client id, or no row when the ticker meets a uniqueness
    constraint. *)
Lemma claim_exact sch t ty tbl pre r post :
  unique_ids tbl -> tbl = (pre ++ r :: post)%list ->
  Sql.update_binding sch t ty (client_id r) tbl
  = if (unique_ticker sch
        && (existsb (has_ticker t) pre || existsb (has_ticker t) post))%bool
    then match on_conflict sch with
         | ConflictAbort => Raise IntegrityError
         | ConflictIgnore => Ret (tbl, 0)
         end
    else Ret ((pre ++ Sql.set_binding t ty r :: post)%list, 1).
Proof.
  intros Hu Htbl. destruct (unique_ids_others tbl pre r post Hu Htbl) as [Hpre Hpost].
  subst tbl. unfold Sql.update_binding.
  rewrite (update_from_untouched sch t ty (client_id r) pre Hpre [] (r :: post)).
  simpl. unfold has_client_id at 1. rewrite String.eqb_refl.
  destruct (unique_ticker sch && _)%bool.
  - destruct (on_conflict sch); [reflexivity|].
    replace (r :: post) with ([r] ++ post)%list by reflexivity.
    rewrite <- (app_nil_r post) at 1.
    rewrite app_assoc.
    rewrite (update_from_untouched sch t ty (client_id r) post Hpost (pre ++ [r]) []).
    simpl. now rewrite <- !app_assoc.
  - rewrite <- (app_nil_r post) at 1.
    rewrite (update_from_untouched sch t ty (client_id r) post Hpost _ []).
    simpl. now rewrite <- !app_assoc.
Qed.

Lemma select_unclaimed_split tbl c k :
  Sql.select_unclaimed tbl = Some (c, k) ->
  exists pre r post,
    tbl = (pre ++ r :: post)%list
    /\ Forall (fun x => is_unclaimed x = false) pre
    /\ ticker r = None /\ client_id r = c /\ token r = k.
Proof.
  unfold Sql.select_unclaimed.
  destruct (find is_unclaimed tbl) as [r|] eqn:F; [|discriminate].
  intros H; inversion H; subst.
  destruct (find_split _ _ _ F) as (pre & post & -> & Hpre & Hr).
  exists pre, r, post. repeat split; auto.
  unfold is_unclaimed in Hr. destruct (ticker r); [discriminate|reflexivity].
Qed.

(** A fresh claim, on a table with unique client ids: the claimed row was
    the first unclaimed one, and the table differs in that row only. *)
Lemma fresh_claim_exact sch e t ty st c k st1 :
  unique_ids (db st) ->
  get_new_bot sch e t ty st = (Ret (Some (c, Some k)), st1) ->
  exists pre r post,
    db st = (pre ++ r :: post)%list
    /\ Forall (fun x => is_unclaimed x = false) pre
    /\ ticker r = None /\ client_id r = c /\ token r = k
    /\ Sql.select_by_ticker t (db st) = None
    /\ db st1 = (pre ++ Sql.set_binding (Str.lower t) ty r :: post)%list
    /\ names st1 = names st /\ sink st1 = sink st.
Proof.
  intros Hu H.
  apply get_new_bot_cases in H
    as [(Ho & _)|(k' & n & Ho & Hnone & Hfree & Hup & Hn & Hst)]; [discriminate|].
  inversion Ho; subst k'.
  destruct (select_unclaimed_split _ _ _ Hfree) as (pre & r & post & Htbl & Hpre & Hr & Hc & Hk).
  exists pre, r, post. subst c.
  rewrite (claim_exact sch (Str.lower t) ty (db st) pre r post Hu Htbl) in Hup.
  destruct (unique_ticker sch && _)%bool.
  - destruct (on_conflict sch); [discriminate|]. inversion Hup. congruence.
  - inversion Hup as [[Hdb Hone]].
    assert (names st1 = names st) by (rewrite Hst; reflexivity).
    assert (sink st1 = sink st) by (rewrite Hst; reflexivity).
    auto 10.
Qed.

Lemma bound_tickers_app a b :
  bound_tickers (a ++ b) = (bound_tickers a ++ bound_tickers b)%list.
Proof. unfold bound_tickers. apply flat_map_app. Qed.

Lemma not_bound_iff t tbl :
  Sql.select_by_ticker t tbl = None <-> ~ In t (bound_tickers tbl).
Proof.
  unfold Sql.select_by_ticker, bound_tickers. split.
  - destruct (find (has_ticker t) tbl) eqn:F; [discriminate|]. intros _ Hin.
    apply in_flat_map in Hin as (r & Hr & Ht).
    pose proof (find_none _ _ F r Hr) as Hf. unfold has_ticker in Hf.
    destruct (ticker r) as [t'|]; [|destruct Ht].
    destruct Ht as [->|[]]. rewrite String.eqb_refl in Hf. discriminate.
  - intros Hn. destruct (find (has_ticker t) tbl) as [r|] eqn:F; [|reflexivity].
    exfalso. apply Hn. apply find_some in F as [Hr Ht].
    apply in_flat_map. exists r. split; [exact Hr|].
    unfold has_ticker in Ht. destruct (ticker r) as [t'|]; [|discriminate].
    apply String.eqb_eq in Ht. subst. now left.
Qed.

Lemma get_new_bot_db_cases sch e t ty st :
  db (after (get_new_bot sch e t ty) st) = db st
  \/ exists c k, get_new_bot sch e t ty st
                 = (Ret (Some (c, Some k)), after (get_new_bot sch e t ty) st).
Proof.
  unfold after.
  unfold get_new_bot, bind, check_existing_bot, select_unclaimed, execute_claim, ret, log.
  destruct (Sql.select_by_ticker t (db st)) as [[c0 k0]|]; simpl; [now left|].
  destruct (Sql.select_unclaimed (db st)) as [[c1 k1]|].
  - destruct (Sql.update_binding sch (Str.lower t) ty c1 (db st)) as [[tbl n]|x] eqn:Hup;
      simpl; [|now left].
    destruct (n =? 0) eqn:Hn; simpl.
    + apply Z.eqb_eq in Hn. apply update_binding_shape in Hup as (_ & _ & Hz & _).
      rewrite (Hz Hn). destruct (webhook e _); now left.
    + right. eauto.
  - destruct (webhook e _); now left.
Qed.

Lemma filter_set_binding_out t ty r :
  is_unclaimed (Sql.set_binding t ty r) = false.
Proof. reflexivity. Qed.

(** X13. A call of [get_new_bot] that returns a freshly claimed bot takes
    exactly one entry out of the unclaimed ones; every other call, whatever
    it returns or raises, leaves the table as it was. *)
Theorem claim_consumes_one_entry sch e t ty st :
  unique_ids (db st) ->
  match result (get_new_bot sch e t ty) st with
  | Ret (Some (_, Some _)) =>
      (unclaimed_count (db (after (get_new_bot sch e t ty) st)) + 1
       = unclaimed_count (db st))%nat
  | _ => db (after (get_new_bot sch e t ty) st) = db st
  end.
Proof.
  intros Hu.
  destruct (get_new_bot_db_cases sch e t ty st) as [Hsame|(c & k & Hfresh)].
  - destruct (result (get_new_bot sch e t ty) st) as [[[c [k|]]|]|x] eqn:Hr; auto.
    apply run_eq in Hr.
    destruct (fresh_claim_exact sch e t ty st c k _ Hu Hr)
      as (pre & r & post & Htbl & _ & Hr0 & _ & _ & _ & Hdb & _).
    rewrite Hsame, Htbl in Hdb. apply app_inv_head in Hdb.
    inversion Hdb as [Hrow]. rewrite Hrow in Hr0. discriminate.
  - unfold result. rewrite Hfresh. simpl.
    destruct (fresh_claim_exact sch e t ty st c k _ Hu Hfresh)
      as (pre & r & post & Htbl & _ & Hr0 & _ & _ & _ & Hdb & _).
    assert (Hru : is_unclaimed r = true) by (unfold is_unclaimed; now rewrite Hr0).
    rewrite Hdb, Htbl. unfold unclaimed_count. rewrite !filter_app. cbn [filter].
    rewrite Hru, filter_set_binding_out. rewrite !length_app. simpl. lia.
Qed.

Lemma claim_consumes_one_entry_witness :
  (unclaimed_count
     (db (after (get_new_bot spec_schema Sample.online "eth" "crypto")
                (Sample.world [Sample.bound1 "btc" "crypto"; Sample.free2]))) + 1
   = unclaimed_count [Sample.bound1 "btc" "crypto"; Sample.free2])%nat.
Proof.
  refine (claim_consumes_one_entry spec_schema Sample.online "eth" "crypto"
            (Sample.world [Sample.bound1 "btc" "crypto"; Sample.free2]) _).
  unfold unique_ids. simpl. repeat constructor; simpl; intuition discriminate.
Defined.

(** ** One entry per ticker *)

Lemma NoDup_insert {X} (a : X) (l l' : list X) :
  NoDup (l ++ l') -> ~ In a (l ++ l') -> NoDup (l ++ a :: l').
Proof.
  induction l as [|x l IH]; simpl; intros Hnd Hin.
  - now constructor.
  - inversion Hnd as [|? ? Hx Hnd']; subst. constructor.
    + intros H. apply in_app_or in H as [H|[H|H]].
      * apply Hx. apply in_or_app; now left.
      * subst. apply Hin. now left.
      * apply Hx. apply in_or_app; now right.
    + apply IH; [exact Hnd'|]. intros H. apply Hin. now right.
Qed.

Lemma existsb_has_ticker_bound t tbl :
  existsb (has_ticker t) tbl = false -> ~ In t (bound_tickers tbl).
Proof.
  intros H. apply not_bound_iff. unfold Sql.select_by_ticker.
  destruct (find (has_ticker t) tbl) as [r|] eqn:F; [|reflexivity].
  apply find_some in F as [Hr Ht].
  assert (existsb (has_ticker t) tbl = true) by (apply existsb_exists; eauto).
  congruence.
Qed.

Lemma get_new_bot_tickers sch e t ty st :
  unique_ids (db st) ->
  NoDup (bound_tickers (db st)) ->
  unique_ticker sch = true \/ Str.lower t = t ->
  NoDup (bound_tickers (db (after (get_new_bot sch e t ty) st))).
Proof.
  intros Hu Hnd Hok.
  destruct (get_new_bot_db_cases sch e t ty st) as [->|(c & k & Hfresh)]; [exact Hnd|].
  pose proof Hfresh as Hcases.
  apply get_new_bot_cases in Hcases
    as [(Ho & _)|(k' & n & _ & Hnone & Hfree & Hup & Hn & _)]; [discriminate|].
  destruct (select_unclaimed_split _ _ _ Hfree) as (pre & r & post & Htbl & _ & Hr & Hc & _).
  subst c. rewrite (claim_exact sch (Str.lower t) ty (db st) pre r post Hu Htbl) in Hup.
  assert (Hb : bound_tickers (db st) = (bound_tickers pre ++ bound_tickers post)%list).
  { rewrite Htbl, bound_tickers_app. simpl. unfold bound_tickers at 2. simpl.
    rewrite Hr. reflexivity. }
  destruct (unique_ticker sch) eqn:Huq; simpl in Hup.
  - destruct (existsb (has_ticker (Str.lower t)) pre
              || existsb (has_ticker (Str.lower t)) post)%bool eqn:Hex.
    + destruct (on_conflict sch); [discriminate|]. inversion Hup. congruence.
    + injection Hup as Hdb Hone. rewrite <- Hdb.
      rewrite bound_tickers_app. simpl.
      apply NoDup_insert; [now rewrite <- Hb|].
      apply Bool.orb_false_elim in Hex as [H1 H2].
      intros Hin. apply in_app_or in Hin as [Hin|Hin].
      * now apply (existsb_has_ticker_bound _ _ H1).
      * now apply (existsb_has_ticker_bound _ _ H2).
  - destruct Hok as [Hok|Hlow]; [discriminate|].
    injection Hup as Hdb Hone. rewrite <- Hdb.
    rewrite bound_tickers_app. simpl.
    apply NoDup_insert; [now rewrite <- Hb|].
    rewrite Hlow, <- Hb. now apply not_bound_iff.
Qed.

Lemma bind_frame_db {A B} (m : M A) (k : A -> M B) st :
  (forall a, db_frame (k a)) -> db (snd (bind m k st)) = db (snd (m st)).
Proof.
  intros Hk. unfold bind. destruct (m st) as [[a|x] s]; simpl; [|reflexivity].
  symmetry. apply Hk.
Qed.

Lemma stock_tickers sch e id st :
  unique_ids (db st) ->
  NoDup (bound_tickers (db st)) ->
  NoDup (bound_tickers (db (after (stock sch e id) st))).
Proof.
  intros Hu Hnd. unfold after.
  destruct (result (stock_validate e (Str.lower id)) st) as [[[y sym]|]|x] eqn:Hv.
  - rewrite (stock_respond sch e id st y sym Hv).
    rewrite bind_frame_db by (intros; apply frame_respond).
    apply get_new_bot_tickers; auto. right.
    now destruct (stock_validate_lower e _ st y sym Hv).
  - unfold stock. rewrite (bind_ret _ (pure_run (pure_stock_validate e _) Hv)).
    match goal with
    | |- context [db (snd (?m st))] => assert (Hf : db_frame m) by frame
    end.
    now rewrite <- (Hf st).
  - unfold stock. rewrite (bind_raise _ (pure_run (pure_stock_validate e _) Hv)). exact Hnd.
Qed.

Lemma crypto_tickers sch e id st :
  unique_ticker sch = true ->
  unique_ids (db st) ->
  NoDup (bound_tickers (db st)) ->
  NoDup (bound_tickers (db (after (crypto sch e id) st))).
Proof.
  intros Huq Hu Hnd. unfold after.
  destruct (result (crypto_validate e (Str.lower id)) st) as [[[cg sym]|]|x] eqn:Hv.
  - unfold crypto. rewrite (bind_ret _ (pure_run (pure_crypto_validate e _) Hv)).
    destruct cg; try exact Hnd.
    rewrite bind_frame_db.
    + apply get_new_bot_tickers; auto.
    + intros bd. frame.
  - unfold crypto. rewrite (bind_ret _ (pure_run (pure_crypto_validate e _) Hv)).
    match goal with
    | |- context [db (snd (?m st))] => assert (Hf : db_frame m) by frame
    end.
    now rewrite <- (Hf st).
  - unfold crypto. rewrite (bind_raise _ (pure_run (pure_crypto_validate e _) Hv)). exact Hnd.
Qed.

Lemma add_bot_tickers sch e c k st :
  bound_tickers (db (after (add_bot sch e c k) st)) = bound_tickers (db st).
Proof.
  unfold after, add_bot.
  destruct (change_bot_username e k "new ticker bot" st) as [[v|x] s] eqn:Hc.
  - pose proof (frame_change_bot_username e k "new ticker bot" st) as Hf.
    rewrite Hc in Hf. simpl in Hf.
    rewrite (bind_ret _ Hc). destruct (negb (truthy v)).
    + match goal with
      | |- context [db (snd (?m s))] => assert (Hg : db_frame m) by frame
      end.
      now rewrite <- (Hg s), Hf.
    + rewrite bind_frame_db by (intros a; frame).
      destruct (execute_insert_cases sch c k s) as [[x Hx]|[H0|H1]].
      * rewrite Hx. simpl. now rewrite Hf.
      * rewrite H0. simpl. now rewrite Hf.
      * rewrite H1. simpl. rewrite bound_tickers_app. simpl.
        rewrite app_nil_r. now rewrite Hf.
  - pose proof (frame_change_bot_username e k "new ticker bot" st) as Hf.
    rewrite Hc in Hf. simpl in Hf. rewrite (bind_raise _ Hc). simpl. now rewrite Hf.
Qed.

(** X14. No ticker gets a second entry.  On a table with unique client ids
    whose bound tickers are distinct, they are still distinct after
    [get_new_bot] for an ASCII ticker in lower case, and after [stock] for an
    ASCII ticker when the symbol of the quote service is ASCII ([stock]
    lower-cases the symbol itself), whatever the table declares; and when the
    table declares the ticker unique, after every operation of the core. *)
Theorem tickers_stay_distinct sch e st :
  unique_ids (db st) ->
  NoDup (bound_tickers (db st)) ->
  (forall t ty, ascii_only t -> Str.lower t = t ->
                NoDup (bound_tickers (db (after (get_new_bot sch e t ty) st))))
  /\ (forall id,
         ascii_only id ->
         (forall y sym, result (stock_validate e (Str.lower id)) st = Ret (Some (y, sym)) ->
                        ascii_only y) ->
         NoDup (bound_tickers (db (after (stock sch e id) st))))
  /\ (unique_ticker sch = true ->
      forall op, NoDup (bound_tickers (db (run_op sch e op st)))).
Proof.
  intros Hu Hnd. split; [|split].
  - intros t ty _ Hlow. apply get_new_bot_tickers; auto.
  - intros id _ _. now apply stock_tickers.
  - intros Huq [t ty|t|id|id|c k]; unfold run_op.
    + apply get_new_bot_tickers; auto.
    + exact Hnd.
    + now apply crypto_tickers.
    + now apply stock_tickers.
    + now rewrite add_bot_tickers.
Qed.

Lemma tickers_stay_distinct_witness :
  NoDup (bound_tickers
           (db (after (stock bare_schema Sample.online "AAPL")
                      (Sample.world [Sample.bound1 "btc" "crypto"; Sample.free2])))).
Proof.
  refine (proj1 (proj2 (tickers_stay_distinct bare_schema Sample.online
                          (Sample.world [Sample.bound1 "btc" "crypto"; Sample.free2])
                          _ _)) "AAPL" eq_refl _).
  - unfold unique_ids. simpl. repeat constructor; simpl; intuition discriminate.
  - simpl. repeat constructor; simpl; intuition.
  - intros y sym H. inversion H. reflexivity.
Defined.

(** ** Claims and lookups *)

Lemma find_app_first {X} (f : X -> bool) pre x post :
  Forall (fun y => f y = false) pre -> f x = true ->
  find f (pre ++ x :: post) = Some x.
Proof.
  induction 1 as [|y pre Hy _ IH]; simpl; intros Hx.
  - now rewrite Hx.
  - rewrite Hy. now apply IH.
Qed.

Lemma filter_nil_forall {X} (f : X -> bool) l :
  filter f l = [] -> Forall (fun y => f y = false) l.
Proof.
  induction l as [|y l IH]; simpl; [constructor|].
  destruct (f y) eqn:Hy; [discriminate|]. intros H. constructor; auto.
Qed.

Lemma forall_false_existsb {X} (f : X -> bool) l :
  Forall (fun y => f y = false) l -> existsb f l = false.
Proof.
  induction 1 as [|y l Hy _ IH]; simpl; [reflexivity|]. now rewrite Hy, IH.
Qed.

Lemma forall_false_filter {X} (f : X -> bool) l :
  Forall (fun y => f y = false) l -> filter f l = [].
Proof.
  induction 1 as [|y l Hy _ IH]; simpl; [reflexivity|]. now rewrite Hy.
Qed.

(** [get_new_bot] on a table with unique client ids, for a lower-case ticker
    without binding, when [r] is the first unclaimed row. *)
Lemma get_new_bot_claims sch e t ty st pre r post :
  unique_ids (db st) ->
  db st = (pre ++ r :: post)%list ->
  Forall (fun x => is_unclaimed x = false) pre ->
  ticker r = None ->
  filter (has_ticker t) (db st) = [] ->
  Str.lower t = t ->
  get_new_bot sch e t ty st
  = (Ret (Some (client_id r, Some (token r))),
     with_db (pre ++ Sql.set_binding t ty r :: post)%list st).
Proof.
  intros Hu Htbl Hpre Hr Hnone Hlow.
  assert (Hru : is_unclaimed r = true) by (unfold is_unclaimed; now rewrite Hr).
  assert (Hc : check_existing_bot t st = (Ret None, st)).
  { unfold check_existing_bot. now rewrite (select_by_ticker_none _ _ Hnone). }
  assert (Hs : select_unclaimed st = (Ret (Some (client_id r, token r)), st)).
  { unfold select_unclaimed, Sql.select_unclaimed.
    now rewrite Htbl, (find_app_first is_unclaimed pre r post Hpre Hru). }
  assert (Hx : execute_claim sch (Str.lower t) ty (client_id r) st
               = (Ret 1, with_db (pre ++ Sql.set_binding t ty r :: post)%list st)).
  { unfold execute_claim. rewrite (claim_exact sch (Str.lower t) ty (db st) pre r post Hu Htbl).
    rewrite Hlow.
    apply filter_nil_forall in Hnone. rewrite Htbl in Hnone.
    apply Forall_app in Hnone as [H1 H2]. inversion H2 as [|? ? _ H3]; subst.
    rewrite (forall_false_existsb _ _ H1), (forall_false_existsb _ _ H3).
    rewrite Bool.andb_false_r. reflexivity. }
  unfold get_new_bot. rewrite (bind_ret _ Hc), (bind_ret _ Hs), (bind_ret _ Hx).
  reflexivity.
Qed.

(** X15. What [get_new_bot] has claimed, a lookup finds: after a fresh claim
    for an ASCII ticker in lower case on a table with unique client ids,
    [check_existing_bot] returns the claimed client id with its token, and a
    second [get_new_bot] for the ticker returns the same client id as
    existing, without a token. *)
Theorem claimed_bot_is_found sch e e' t ty ty' st c k :
  unique_ids (db st) ->
  ascii_only t ->
  Str.lower t = t ->
  result (get_new_bot sch e t ty) st = Ret (Some (c, Some k)) ->
  result (check_existing_bot t) (after (get_new_bot sch e t ty) st) = Ret (Some (c, k))
  /\ get_new_bot sch e' t ty' (after (get_new_bot sch e t ty) st)
     = (Ret (Some (c, None)), after (get_new_bot sch e t ty) st).
Proof.
  intros Hu _ Hlow Hr. apply run_eq in Hr.
  destruct (fresh_claim_exact sch e t ty st c k _ Hu Hr)
    as (pre & r & post & Htbl & _ & Hr0 & Hc & Hk & Hnone & Hdb & _).
  assert (Hfind : Sql.select_by_ticker t (db (after (get_new_bot sch e t ty) st)) = Some (c, k)).
  { rewrite Hdb, Hlow. unfold Sql.select_by_ticker in *. rewrite Htbl in Hnone.
    destruct (find (has_ticker t) (pre ++ r :: post)) eqn:F; [discriminate|].
    rewrite (find_app_first (has_ticker t) pre (Sql.set_binding t ty r) post).
    - simpl. now rewrite Hc, Hk.
    - apply Forall_forall. intros x Hx. apply (find_none _ _ F).
      apply in_or_app. now left.
    - unfold has_ticker. simpl. apply String.eqb_refl. }
  split.
  - unfold result, check_existing_bot. simpl. now rewrite Hfind.
  - now apply (get_new_bot_reuses sch e' t ty' _ c k).
Qed.

Lemma claimed_bot_is_found_witness :
  result (check_existing_bot "eth")
         (after (get_new_bot bare_schema Sample.online "eth" "crypto")
                (Sample.world [Sample.bound1 "btc" "crypto"; Sample.free2]))
  = Ret (Some ("c2", "t2")).
Proof.
  refine (proj1 (claimed_bot_is_found bare_schema Sample.online Sample.online
                   "eth" "crypto" "crypto"
                   (Sample.world [Sample.bound1 "btc" "crypto"; Sample.free2])
                   "c2" "t2" _ eq_refl eq_refl eq_refl)).
  unfold unique_ids. simpl. repeat constructor; simpl; intuition discriminate.
Defined.

Lemma add_bot_true_db sch e cid tok st :
  result (add_bot sch e cid tok) st = Ret true ->
  db (after (add_bot sch e cid tok) st) = (db st ++ [mkRow cid tok None None])%list.
Proof.
  unfold result, after, add_bot. intros H.
  pose proof (frame_change_bot_username e tok "new ticker bot" st) as Hf.
  destruct (change_bot_username e tok "new ticker bot" st) as [[v|x] s] eqn:Hc;
    [|rewrite (bind_raise _ Hc) in H; discriminate].
  simpl in Hf. rewrite (bind_ret _ Hc) in H |- *.
  destruct (negb (truthy v)).
  - unfold bind, log, ret in H. destruct (webhook e _); simpl in H; discriminate.
  - destruct (execute_insert_cases sch cid tok s) as [[x Hx]|[H0|H1]].
    + rewrite (bind_raise _ Hx) in H. discriminate.
    + rewrite (bind_ret _ H0) in H. change (0 =? 0) with true in H. cbv iota in H.
      unfold bind, log, ret in H. destruct (webhook e _); simpl in H; discriminate.
    + rewrite (bind_ret _ H1). simpl. now rewrite Hf.
Qed.

(** X16. Registration feeds allocation: when [add_bot] has returned [True]
    on a pool without unclaimed entry, the next [get_new_bot] for an ASCII
    ticker in lower case and without binding claims exactly the credential
    that was registered. *)
Theorem registered_bot_is_claimed_next sch e e' st cid tok t ty :
  unique_client_id sch = true ->
  unique_ids (db st) ->
  filter is_unclaimed (db st) = [] ->
  filter (has_ticker t) (db st) = [] ->
  ascii_only t ->
  Str.lower t = t ->
  result (add_bot sch e cid tok) st = Ret true ->
  result (get_new_bot sch e' t ty) (after (add_bot sch e cid tok) st)
  = Ret (Some (cid, Some tok)).
Proof.
  intros Hs Hu Hfull Hnone _ Hlow Hr.
  pose proof (add_bot_true_db sch e cid tok st Hr) as Hdb.
  pose proof (unique_ids_invariant sch e (Op_add_bot cid tok) st Hs Hu) as Hu'.
  simpl in Hu'. unfold result.
  rewrite (get_new_bot_claims sch e' t ty (after (add_bot sch e cid tok) st)
             (db st) (mkRow cid tok None None) [] Hu' Hdb).
  - reflexivity.
  - now apply filter_nil_forall.
  - reflexivity.
  - rewrite Hdb, filter_app, Hnone. reflexivity.
  - exact Hlow.
Qed.

Lemma registered_bot_is_claimed_next_witness :
  result (get_new_bot spec_schema Sample.online "eth" "crypto")
         (after (add_bot spec_schema Sample.online "c9" "t9")
                (Sample.world [Sample.bound1 "btc" "crypto"]))
  = Ret (Some ("c9", Some "t9")).
Proof.
  refine (registered_bot_is_claimed_next spec_schema Sample.online Sample.online
            (Sample.world [Sample.bound1 "btc" "crypto"]) "c9" "t9" "eth" "crypto"
            eq_refl _ eq_refl eq_refl eq_refl eq_refl eq_refl).
  unfold unique_ids. simpl. repeat constructor; simpl; intuition.
Defined.

(** X17. Callers that come one after the other share the last entry
    correctly: on a pool with a single unclaimed row, the first [get_new_bot]
    (ASCII ticker in lower case, not bound) gets that row, and a following
    [get_new_bot] for another unbound ticker changes nothing; it passes one
    message to [log], returns the empty result when the webhook takes the
    message and raises what the webhook call raises otherwise. *)
Theorem last_entry_goes_to_the_first_caller sch e st t1 t2 ty1 ty2 pre r post :
  unique_ids (db st) ->
  db st = (pre ++ r :: post)%list ->
  filter is_unclaimed pre = [] ->
  filter is_unclaimed post = [] ->
  ticker r = None ->
  filter (has_ticker t1) (db st) = [] ->
  filter (has_ticker t2) (db st) = [] ->
  ascii_only t1 ->
  Str.lower t1 = t1 ->
  t1 <> t2 ->
  result (get_new_bot sch e t1 ty1) st = Ret (Some (client_id r, Some (token r)))
  /\ result (get_new_bot sch e t2 ty2) (after (get_new_bot sch e t1 ty1) st)
     = after_log e "Unable to get new bot from db" None
  /\ db (after (get_new_bot sch e t2 ty2) (after (get_new_bot sch e t1 ty1) st))
     = (pre ++ Sql.set_binding t1 ty1 r :: post)%list.
Proof.
  intros Hu Htbl Hpre Hpost Hr H1 H2 _ Hlow Hne.
  pose proof (get_new_bot_claims sch e t1 ty1 st pre r post Hu Htbl
                (filter_nil_forall _ _ Hpre) Hr H1 Hlow) as Hfirst.
  unfold result, after, after_log. rewrite Hfirst. simpl fst. simpl snd.
  split; [reflexivity|].
  rewrite (get_new_bot_exhausted_run sch e t2 ty2 _).
  - destruct (webhook e "Unable to get new bot from db"); auto.
  - simpl. rewrite filter_app. cbn [filter]. rewrite filter_set_binding_out.
    now rewrite Hpre, Hpost.
  - simpl. rewrite Htbl in H2. rewrite filter_app in *. cbn [filter] in *.
    apply app_eq_nil in H2 as [Ha Hb].
    assert (has_ticker t2 r = false) as Hrf by (unfold has_ticker; now rewrite Hr).
    rewrite Hrf in Hb. rewrite Ha, Hb.
    assert (has_ticker t2 (Sql.set_binding t1 ty1 r) = false) as ->.
    { unfold has_ticker. simpl. now apply String.eqb_neq. }
    reflexivity.
Qed.

Lemma last_entry_goes_to_the_first_caller_witness :
  result (get_new_bot spec_schema Sample.online "btc" "crypto") (Sample.world [Sample.free1])
  = Ret (Some ("c1", Some "t1"))
  /\ result (get_new_bot spec_schema Sample.online "eth" "crypto")
            (after (get_new_bot spec_schema Sample.online "btc" "crypto")
                   (Sample.world [Sample.free1]))
     = Ret None
  /\ db (after (get_new_bot spec_schema Sample.online "eth" "crypto")
               (after (get_new_bot spec_schema Sample.online "btc" "crypto")
                      (Sample.world [Sample.free1])))
     = [Sample.bound1 "btc" "crypto"].
Proof.
  refine (last_entry_goes_to_the_first_caller spec_schema Sample.online
            (Sample.world [Sample.free1]) "btc" "eth" "crypto" "crypto"
            [] Sample.free1 [] _ eq_refl eq_refl eq_refl eq_refl eq_refl eq_refl eq_refl
            eq_refl _).
  - unfold unique_ids. simpl. repeat constructor; simpl; intuition.
  - discriminate.
Defined.

(** ** A ticker that the validator rejects *)

(** X18. A request for an ASCII ticker that the validator rejects claims
    nothing and renames nothing: the table and the display names are as
    before, whatever the request returns or raises. Without a binding under
    the lower-cased raw ticker it passes the validation error, which quotes
    the ticker as it was typed, to [log]: it answers with that error when the
    webhook takes the message, and raises what the webhook call raises
    otherwise. *)
Theorem rejected_ticker_claims_nothing sch e id st :
  ascii_only id ->
  (result (crypto_validate e (Str.lower id)) st = Ret None ->
   db (after (crypto sch e id) st) = db st
   /\ names (after (crypto sch e id) st) = names st
   /\ (filter (has_ticker (Str.lower id)) (db st) = [] ->
       result (crypto sch e id) st
       = after_log e ("unable to validate coin id: " ++ id)
           (PDict [("error", PStr ("unable to validate coin id: " ++ id))])))
  /\ (result (stock_validate e (Str.lower id)) st = Ret None ->
      db (after (stock sch e id) st) = db st
      /\ names (after (stock sch e id) st) = names st
      /\ (filter (has_ticker (Str.lower id)) (db st) = [] ->
          result (stock sch e id) st
          = after_log e ("unable to validate stock id: " ++ id)
              (PDict [("error", PStr ("unable to validate stock id: " ++ id))]))).
Proof.
  intros _. split; intros Hv; unfold result, after, after_log.
  - unfold crypto. rewrite (bind_ret _ (pure_run (pure_crypto_validate e _) Hv)).
    assert (Hc : check_existing_bot (Str.lower id) st
                 = (Ret (Sql.select_by_ticker (Str.lower id) (db st)), st)) by reflexivity.
    rewrite (bind_ret _ Hc).
    destruct (Sql.select_by_ticker (Str.lower id) (db st)) as [[c k]|] eqn:Hs.
    + simpl. repeat split; auto. intros Hn.
      rewrite (select_by_ticker_none _ _ Hn) in Hs. discriminate.
    + repeat split.
      * rewrite after_bind_const. symmetry. apply (frame_log e _ st).
      * rewrite after_bind_const. apply log_keeps_names.
      * intros _. rewrite log_then_ret. now destruct (webhook e _).
  - unfold stock. rewrite (bind_ret _ (pure_run (pure_stock_validate e _) Hv)).
    assert (Hc : check_existing_bot (Str.lower id) st
                 = (Ret (Sql.select_by_ticker (Str.lower id) (db st)), st)) by reflexivity.
    rewrite (bind_ret _ Hc).
    destruct (Sql.select_by_ticker (Str.lower id) (db st)) as [[c k]|] eqn:Hs.
    + simpl. repeat split; auto. intros Hn.
      rewrite (select_by_ticker_none _ _ Hn) in Hs. discriminate.
    + repeat split.
      * rewrite after_bind_const. symmetry. apply (frame_log e _ st).
      * rewrite after_bind_const. apply log_keeps_names.
      * intros _. rewrite log_then_ret. now destruct (webhook e _).
Qed.

Lemma rejected_ticker_claims_nothing_witness :
  db (after (crypto spec_schema Sample.unknown_ticker "Doge") (Sample.world [Sample.free1]))
  = [Sample.free1]
  /\ result (crypto spec_schema Sample.unknown_ticker "Doge") (Sample.world [Sample.free1])
     = Ret (PDict [("error", PStr "unable to validate coin id: Doge")]).
Proof.
  destruct (proj1 (rejected_ticker_claims_nothing spec_schema Sample.unknown_ticker "Doge"
                     (Sample.world [Sample.free1]) eq_refl) eq_refl) as (H1 & _ & H3).
  split; [exact H1|].
  exact (H3 eq_refl).
Defined.

(** ** What [crypto] answers *)

Lemma select_by_ticker_in t tbl c k :
  Sql.select_by_ticker t tbl = Some (c, k) -> In c (map client_id tbl).
Proof.
  unfold Sql.select_by_ticker. destruct (find (has_ticker t) tbl) as [r|] eqn:F; [|discriminate].
  intros H; inversion H; subst. apply find_some in F as [Hr _]. now apply in_map.
Qed.

Lemma get_new_bot_client_id_in sch e t ty st c o st1 :
  get_new_bot sch e t ty st = (Ret (Some (c, o)), st1) -> In c (map client_id (db st)).
Proof.
  intros H. apply get_new_bot_cases in H
    as [(_ & _ & k & Hk)|(k & n & _ & _ & Hfree & _)].
  - eapply select_by_ticker_in; eauto.
  - apply select_unclaimed_some in Hfree as (r & Hr & _ & <- & _). now apply in_map.
Qed.

(** X19. For an ASCII ticker whose canonical id, when the catalogue gives
    one, is a string, whatever [crypto] returns is an error message, or the
    client id of a row of the pool, alone or marked as existing; the token of
    a bot is never part of the answer. *)
Theorem crypto_answers_without_token sch e id st r :
  ascii_only id ->
  (forall v sym,
      result (crypto_validate e (Str.lower id)) st = Ret (Some (v, sym)) ->
      exists cg, v = PStr cg) ->
  result (crypto sch e id) st = Ret r ->
  (exists msg, r = PDict [("error", PStr msg)])
  \/ (exists c, In c (map client_id (db st))
                /\ (r = PDict [("client_id", PStr c)]
                    \/ r = PDict [("client_id", PStr c); ("existing", PBool true)])).
Proof.
  intros _ Hstr. unfold result, crypto.
  destruct (result (crypto_validate e (Str.lower id)) st) as [[[cg sym]|]|x] eqn:Hv.
  - rewrite (bind_ret _ (pure_run (pure_crypto_validate e _) Hv)).
    destruct (Hstr cg sym eq_refl) as [s ->].
    destruct (get_new_bot sch e s "crypto" st) as [[[[c k]|]|x] st1] eqn:Hg.
    + pose proof (get_new_bot_client_id_in sch e s "crypto" st c k st1 Hg) as Hin.
      rewrite (bind_ret _ Hg). unfold bind, ret.
      repeat (case_innermost; simpl; try discriminate).
      all: intros H; inversion H; subst; eauto 6.
    + rewrite (bind_ret _ Hg). unfold bind, ret.
      destruct (log e _ st1) as [[z|x] s2]; simpl; [|discriminate].
      intros H; inversion H; eauto.
    + rewrite (bind_raise _ Hg). discriminate.
  - rewrite (bind_ret _ (pure_run (pure_crypto_validate e _) Hv)).
    unfold bind, check_existing_bot, ret.
    destruct (Sql.select_by_ticker (Str.lower id) (db st)) as [[c k]|] eqn:Hs; simpl.
    + intros H; inversion H. right. exists c. split; [|now right].
      eapply select_by_ticker_in; eauto.
    + destruct (log e _ st) as [[z|x] s2]; simpl; [|discriminate].
      intros H; inversion H; eauto.
  - rewrite (bind_raise _ (pure_run (pure_crypto_validate e _) Hv)). discriminate.
Qed.

Lemma crypto_answers_without_token_witness :
  (exists msg, PDict [("client_id", PStr "c1")] = PDict [("error", PStr msg)])
  \/ (exists c, In c (map client_id (db (Sample.world [Sample.free1])))
                /\ (PDict [("client_id", PStr "c1")] = PDict [("client_id", PStr c)]
                    \/ PDict [("client_id", PStr "c1")]
                       = PDict [("client_id", PStr c); ("existing", PBool true)])).
Proof.
  refine (crypto_answers_without_token spec_schema Sample.online "Bitcoin"
            (Sample.world [Sample.free1]) (PDict [("client_id", PStr "c1")])
            eq_refl _ eq_refl).
  intros v sym H. inversion H. exists "bitcoin". reflexivity.
Defined.

(** ** Uniqueness of the credentials *)

Lemma tokens_stay_unique_refl sch tbl : tokens_stay_unique sch tbl tbl.
Proof. intros _ H. exact H. Qed.

Lemma Forall2_claimed_tokens t ty c (tbl tbl' : list row) :
  Forall2 (claimed_from t ty c) tbl tbl' ->
  map token tbl' = map token tbl.
Proof.
  induction 1 as [|r r' l l' [->|[_ ->]] _ IH]; simpl; congruence.
Qed.

Lemma get_new_bot_tokens sch e t ty : db_rel (tokens_stay_unique sch) (get_new_bot sch e t ty).
Proof.
  intros st _ Hu.
  unfold get_new_bot, bind, check_existing_bot, select_unclaimed, execute_claim, ret, log.
  destruct (Sql.select_by_ticker t (db st)) as [[c0 k0]|]; simpl; [exact Hu|].
  destruct (Sql.select_unclaimed (db st)) as [[c1 k1]|].
  - destruct (Sql.update_binding sch (Str.lower t) ty c1 (db st)) as [[tbl n]|x] eqn:Hup;
      simpl; [|exact Hu].
    assert (unique_tokens tbl).
    { apply update_binding_shape in Hup as (HF & _).
      unfold unique_tokens. now rewrite (Forall2_claimed_tokens _ _ _ _ _ HF). }
    destruct (n =? 0); simpl; [destruct (webhook e _)|]; simpl; assumption.
  - destruct (webhook e _); simpl; exact Hu.
Qed.

Lemma existsb_token k tbl :
  existsb (has_token k) tbl = false -> ~ In k (map token tbl).
Proof.
  intros H Hin. apply in_map_iff in Hin as (r & <- & Hr).
  assert (existsb (has_token (token r)) tbl = true) as Ht.
  { apply existsb_exists. exists r. split; [exact Hr|apply String.eqb_refl]. }
  congruence.
Qed.

Lemma NoDup_snoc {X} (a : X) (l : list X) :
  NoDup l -> ~ In a l -> NoDup (l ++ [a]).
Proof.
  intros Hnd Hin. apply NoDup_insert; rewrite app_nil_r; assumption.
Qed.

Lemma execute_insert_tokens sch c k : db_rel (tokens_stay_unique sch) (execute_insert sch c k).
Proof.
  intros st Hs Hu. unfold execute_insert, Sql.insert_unclaimed. rewrite Hs.
  destruct (unique_client_id sch && _)%bool; simpl.
  - destruct (on_conflict sch); exact Hu.
  - destruct (existsb (has_token k) (db st)) eqn:Hk; simpl.
    + destruct (on_conflict sch); exact Hu.
    + unfold unique_tokens in *. rewrite map_app. simpl.
      apply NoDup_snoc; [exact Hu|now apply existsb_token].
Qed.

Lemma run_op_tokens sch e op st :
  unique_token sch = true ->
  unique_tokens (db st) -> unique_tokens (db (run_op sch e op st)).
Proof.
  intros Hs Hu. destruct op as [t ty|t|id|id|c k]; unfold run_op, after.
  - now apply get_new_bot_tokens.
  - exact Hu.
  - revert Hs Hu. generalize st. change (db_rel (tokens_stay_unique sch) (crypto sch e id)).
    unfold crypto.
    apply rel_bind_r; [exact (tokens_stay_unique_refl sch)|auto with frame|].
    intros [[[] sym]|];
      try solve [apply rel_of_frame; [exact (tokens_stay_unique_refl sch)|frame]].
    apply rel_bind_l; [apply get_new_bot_tokens|intros ?; frame].
  - revert Hs Hu. generalize st. change (db_rel (tokens_stay_unique sch) (stock sch e id)).
    unfold stock.
    apply rel_bind_r; [exact (tokens_stay_unique_refl sch)|auto with frame|].
    intros [[y sym]|];
      try solve [apply rel_of_frame; [exact (tokens_stay_unique_refl sch)|frame]].
    apply rel_bind_l; [apply get_new_bot_tokens|intros ?; frame].
  - revert Hs Hu. generalize st. change (db_rel (tokens_stay_unique sch) (add_bot sch e c k)).
    unfold add_bot.
    apply rel_bind_r; [exact (tokens_stay_unique_refl sch)|auto with frame|].
    intros renamed. destruct (negb (truthy renamed)).
    + apply rel_of_frame; [exact (tokens_stay_unique_refl sch)|frame].
    + apply rel_bind_l; [apply execute_insert_tokens|intros ?; frame].
Qed.

(** X20. With client id and token declared unique in the table, no sequence
    of operations of the core, each under its own answers of the services,
    ever produces two rows with the same client id or the same token. *)
Theorem credentials_stay_unique sch ops :
  unique_client_id sch = true ->
  unique_token sch = true ->
  forall st,
    unique_ids (db st) -> unique_tokens (db st) ->
    unique_ids (db (run_ops sch ops st)) /\ unique_tokens (db (run_ops sch ops st)).
Proof.
  intros Hc Ht. induction ops as [|[e op] ops IH]; simpl; intros st Hu Hk; [auto|].
  apply IH.
  - now apply unique_ids_invariant.
  - now apply run_op_tokens.
Qed.

Lemma credentials_stay_unique_witness :
  unique_ids (db (run_ops spec_schema
                    [(Sample.online, Op_add_bot "c1" "t9");
                     (Sample.online, Op_add_bot "c3" "t3");
                     (Sample.online, Op_crypto "Bitcoin")]
                    (Sample.world [Sample.free1])))
  /\ unique_tokens (db (run_ops spec_schema
                          [(Sample.online, Op_add_bot "c1" "t9");
                           (Sample.online, Op_add_bot "c3" "t3");
                           (Sample.online, Op_crypto "Bitcoin")]
                          (Sample.world [Sample.free1]))).
Proof.
  refine (credentials_stay_unique spec_schema _ eq_refl eq_refl
            (Sample.world [Sample.free1]) _ _).
  - unfold unique_ids. simpl. repeat constructor; simpl; intuition.
  - unfold unique_tokens. simpl. repeat constructor; simpl; intuition.
Defined.

(** ** The case of the tickers in the pool *)

Lemma tickers_stay_lower_refl tbl : tickers_stay_lower tbl tbl.
Proof. intros H. exact H. Qed.

Lemma Forall2_claimed_bound t ty c (tbl tbl' : list row) :
  Forall2 (claimed_from t ty c) tbl tbl' ->
  forall x, In x (bound_tickers tbl') -> x = t \/ In x (bound_tickers tbl).
Proof.
  induction 1 as [|r r' l l' Hr _ IH]; simpl; intros x Hx; [destruct Hx|].
  change (bound_tickers (r' :: l')) with (bound_tickers [r'] ++ bound_tickers l')%list in Hx.
  change (bound_tickers (r :: l)) with (bound_tickers [r] ++ bound_tickers l)%list.
  apply in_app_or in Hx as [Hx|Hx].
  - destruct Hr as [->|[_ ->]].
    + right. apply in_or_app. now left.
    + left. simpl in Hx. destruct Hx as [<-|[]]. reflexivity.
  - destruct (IH x Hx) as [->|Hin]; [now left|]. right. apply in_or_app. now right.
Qed.

Lemma get_new_bot_lower sch e t ty : db_rel tickers_stay_lower (get_new_bot sch e t ty).
Proof.
  intros st Hl.
  unfold get_new_bot, bind, check_existing_bot, select_unclaimed, execute_claim, ret, log.
  destruct (Sql.select_by_ticker t (db st)) as [[c0 k0]|]; simpl; [exact Hl|].
  destruct (Sql.select_unclaimed (db st)) as [[c1 k1]|].
  - destruct (Sql.update_binding sch (Str.lower t) ty c1 (db st)) as [[tbl n]|x] eqn:Hup;
      simpl; [|exact Hl].
    assert (Forall lower_case (bound_tickers tbl)).
    { apply update_binding_shape in Hup as (HF & _).
      apply Forall_forall. intros x Hx.
      destruct (Forall2_claimed_bound _ _ _ _ _ HF x Hx) as [->|Hin].
      - apply lower_idem.
      - rewrite Forall_forall in Hl. now apply Hl. }
    destruct (n =? 0); simpl; [destruct (webhook e _)|]; simpl; assumption.
  - destruct (webhook e _); simpl; exact Hl.
Qed.

Lemma execute_insert_lower sch c k : db_rel tickers_stay_lower (execute_insert sch c k).
Proof.
  intros st Hl. destruct (execute_insert_cases sch c k st) as [[x Hx]|[H0|H1]].
  - now rewrite Hx.
  - now rewrite H0.
  - rewrite H1. simpl. rewrite bound_tickers_app. simpl. now rewrite app_nil_r.
Qed.

Lemma run_op_lower sch e op : forall st,
  tickers_stay_lower (db st) (db (run_op sch e op st)).
Proof.
  destruct op as [t ty|t|id|id|c k]; unfold run_op, after.
  - apply get_new_bot_lower.
  - intros st. apply tickers_stay_lower_refl.
  - change (db_rel tickers_stay_lower (crypto sch e id)). unfold crypto.
    apply rel_bind_r; [exact tickers_stay_lower_refl|auto with frame|].
    intros [[[] sym]|];
      try solve [apply rel_of_frame; [exact tickers_stay_lower_refl|frame]].
    apply rel_bind_l; [apply get_new_bot_lower|intros ?; frame].
  - change (db_rel tickers_stay_lower (stock sch e id)). unfold stock.
    apply rel_bind_r; [exact tickers_stay_lower_refl|auto with frame|].
    intros [[y sym]|];
      try solve [apply rel_of_frame; [exact tickers_stay_lower_refl|frame]].
    apply rel_bind_l; [apply get_new_bot_lower|intros ?; frame].
  - change (db_rel tickers_stay_lower (add_bot sch e c k)). unfold add_bot.
    apply rel_bind_r; [exact tickers_stay_lower_refl|auto with frame|].
    intros renamed. destruct (negb (truthy renamed)).
    + apply rel_of_frame; [exact tickers_stay_lower_refl|frame].
    + apply rel_bind_l; [apply execute_insert_lower|intros ?; frame].
Qed.

(** X21. The core writes tickers in lower case only: when every bound
    ticker of the pool is in lower case, this is still so after any sequence
    of operations of the core, whatever the table declares and whatever the
    services answer. *)
Theorem tickers_stay_lower_case sch ops :
  forall st,
    Forall lower_case (bound_tickers (db st)) ->
    Forall lower_case (bound_tickers (db (run_ops sch ops st))).
Proof.
  induction ops as [|[e op] ops IH]; simpl; intros st Hl; [exact Hl|].
  apply IH. now apply run_op_lower.
Qed.

Lemma tickers_stay_lower_case_witness :
  Forall lower_case
         (bound_tickers
            (db (run_ops bare_schema
                   [(Sample.upper_id, Op_crypto "btc"); (Sample.online, Op_stock "AAPL")]
                   (Sample.world [Sample.free1; Sample.free2])))).
Proof.
  refine (tickers_stay_lower_case bare_schema _ (Sample.world [Sample.free1; Sample.free2]) _).
  constructor.
Defined.
